(** * TV/sort_channels.py: playlist parsing and template classification

    A shallow embedding of [TV/sort_channels.py] and the properties of its
    parser ([parse_m3u_to_txt]) and of its classifier (the body of [main]).

    Python's [str] is a sequence of Unicode code points: a character is a
    code point in [N], a string is a [list N].  The text primitives
    ([str.strip], [str.split], [str.splitlines], [str.startswith], [in],
    [str.join]) and the regular expressions of the parser and of the
    classifier are written out as functions.  The comparison of two
    characters under [re.IGNORECASE] depends on the case tables of the
    Unicode database: it is a parameter of the classifier, and the
    properties are proved for every comparison.  Network retrieval and the
    file system stay outside: the bodies of the responses, the name mapping
    and the lines of the template file are inputs, as is the answer of the
    file system to the write, and what [main] itself prints and writes is
    returned as a list of events. *)

From Stdlib Require Import NArith Lia String Ascii.
From stdpp Require Import base decidable option list gmap.

Set Warnings "-clear-no-such-hyp".

Open Scope N_scope.

(** ** Strings *)

Abbreviation char := N.
Abbreviation str := (list N).

(** An ASCII literal as a sequence of code points. *)
Fixpoint lit (x : string) : str :=
  match x with
  | EmptyString => []
  | String a r => N_of_ascii a :: lit r
  end.

Module Py.

(** [str.isspace] on one character: the code points Python treats as
    whitespace, which are also the ones [\s] matches in a [str] pattern. *)
Definition isspace (c : char) : bool :=
  ((9 <=? c) && (c <=? 13)) || ((28 <=? c) && (c <=? 32))
  || (c =? 133) || (c =? 160) || (c =? 5760)
  || ((8192 <=? c) && (c <=? 8202))
  || (c =? 8232) || (c =? 8233) || (c =? 8239) || (c =? 8287)
  || (c =? 12288).

(** The line boundaries of [str.splitlines]. *)
Definition islinebreak (c : char) : bool :=
  ((10 <=? c) && (c <=? 13)) || ((28 <=? c) && (c <=? 30))
  || (c =? 133) || (c =? 8232) || (c =? 8233).

Fixpoint lstrip (s : str) : str :=
  match s with
  | c :: s' => if isspace c then lstrip s' else s
  | [] => []
  end.

Definition rstrip (s : str) : str := rev (lstrip (rev s)).

(** [s.strip()] *)
Definition strip (s : str) : str := rstrip (lstrip s).

(** [s.startswith(p)] *)
Fixpoint startswith (p s : str) : bool :=
  match p, s with
  | [], _ => true
  | a :: p', b :: s' => (a =? b) && startswith p' s'
  | _ :: _, [] => false
  end.

(** [p in s] *)
Fixpoint contains (p s : str) : bool :=
  startswith p s ||
  match s with
  | [] => false
  | _ :: s' => contains p s'
  end.

(** [s.split(sep)] for a one-character separator: never empty. *)
Fixpoint split (sep : char) (s : str) : list str :=
  match s with
  | [] => [[]]
  | c :: s' =>
      if c =? sep then [] :: split sep s'
      else match split sep s' with
           | w :: ws => (c :: w) :: ws
           | [] => [[c]]
           end
  end.

(** [l[-1]] of a list that [split] returned. *)
Definition last_field (l : list str) : str := List.last l [].

(** [s.splitlines()]: [cur] is the line being read (reversed), [cr] tells
    that the previous character was a carriage return, so that a line feed
    right after it belongs to the same boundary. *)
Fixpoint splitlines_from (cur : str) (cr : bool) (s : str) : list str :=
  match s with
  | [] => match cur with [] => [] | _ => [rev cur] end
  | c :: s' =>
      if (c =? 10) && cr then splitlines_from [] false s'
      else if islinebreak c then rev cur :: splitlines_from [] (c =? 13) s'
      else splitlines_from (c :: cur) false s'
  end.

Definition splitlines (s : str) : list str := splitlines_from [] false s.

(** [sep.join(l)] *)
Fixpoint join (sep : str) (l : list str) : str :=
  match l with
  | [] => []
  | [x] => x
  | x :: l' => x ++ sep ++ join sep l'
  end.

End Py.

(** ** The regular expressions of the script *)

Module Re.

(** Lower-casing of the ASCII letters. *)
Definition ascii_lower (c : char) : char :=
  if (65 <=? c) && (c <=? 90) then c + 32 else c.

(** One literal character of a pattern compiled with [re.IGNORECASE]:
    [ci_char p c] tells whether the character [p] of the pattern accepts the
    character [c] of the text.  The engine decides it from the case tables
    of the interpreter's Unicode database: a [p] that has no case accepts
    itself only, and any other [p] accepts the characters whose lower case
    is the lower case of [p] or one of the characters listed as its
    equivalents.  This is more than folding the ASCII letters: the pattern
    character [k] accepts the Kelvin sign U+212A, and the letters of every
    alphabet are compared up to case.  The tables are not copied here: the
    comparison is a parameter of the classifier, together with what holds
    of it whatever the tables are, and nothing else is assumed of it
    (neither symmetry nor transitivity):
    - two ASCII characters are compared by their ASCII lower case, since
      the equivalents of an ASCII letter are not ASCII;
    - whitespace has no case and no letter is lower-cased to it: an
      accepted character is whitespace exactly when the pattern character
      is;
    - likewise for the comma. *)
Class IgnoreCase := {
  ci_char : char → char → bool;
  ci_char_ascii (p c : char) :
    p < 128 → c < 128 → ci_char p c = (ascii_lower c =? ascii_lower p);
  ci_char_space (p c : char) :
    ci_char p c = true → Py.isspace c = Py.isspace p;
  ci_char_comma (p c : char) :
    ci_char p c = true → (c =? 44) = (p =? 44)
}.

(** [\s*] followed by the rest of the pattern [k]: greedy, and giving
    characters back when the rest fails. *)
Fixpoint ws_star (k : str → bool) (s : str) : bool :=
  match s with
  | c :: s' => (Py.isspace c && ws_star k s') || k s
  | [] => k []
  end.

Section Patterns.

Context {ic : IgnoreCase}.

(** The escaped text [p], case-insensitively, followed by [k]. *)
Fixpoint literal_ci (p : str) (k : str → bool) (s : str) : bool :=
  match p, s with
  | [], _ => k s
  | a :: p', c :: s' => ci_char a c && literal_ci p' k s'
  | _ :: _, [] => false
  end.

Definition comma (s : str) : bool :=
  match s with
  | c :: _ => c =? 44
  | [] => false
  end.

(** The test of the classifier: [re.match] of the pattern
    [^\s*CHANNEL\s*,] on [line] under [re.IGNORECASE], where CHANNEL is
    [re.escape(channel)], as a truth value. *)
Definition match_channel (channel line : str) : bool :=
  ws_star (literal_ci channel (ws_star comma)) line.

End Patterns.

(** The longest run of characters other than the double quote (34) at the
    start of [s], and what follows it. *)
Fixpoint unquoted_run (s : str) : str * str :=
  match s with
  | c :: s' =>
      if c =? 34 then ([], s)
      else let '(v, rest) := unquoted_run s' in (c :: v, rest)
  | [] => ([], [])
  end.

(** A pattern made of the text [prefix], a group of characters other than
    the double quote, and a closing double quote, tried at the start of
    [s]; the result is the group. *)
Definition quoted_at (prefix s : str) : option str :=
  if Py.startswith prefix s then
    let '(v, rest) := unquoted_run (drop (length prefix) s) in
    match rest with
    | c :: _ => if c =? 34 then Some v else None
    | [] => None
    end
  else None.

(** [re.search] of that pattern: the leftmost position where it matches. *)
Fixpoint search_quoted (prefix s : str) : option str :=
  match quoted_at prefix s with
  | Some v => Some v
  | None => match s with
            | [] => None
            | _ :: s' => search_quoted prefix s'
            end
  end.

(** The longest run of characters other than whitespace at the start of
    [s]. *)
Fixpoint non_space_run (s : str) : str :=
  match s with
  | c :: s' => if Py.isspace c then [] else c :: non_space_run s'
  | [] => []
  end.

(** The text [scheme] and after it at least one character other than
    whitespace, as many as there are, tried at the start of [s]. *)
Definition url_with (scheme s : str) : option str :=
  if Py.startswith scheme s then
    match non_space_run (drop (length scheme) s) with
    | [] => None
    | v => Some (scheme ++ v)
    end
  else None.

(** The pattern of [fetch_m3u_content], [http], an optional [s], [://] and
    characters other than whitespace, tried at the start of [s]: the
    optional [s] is tried first. *)
Definition url_at (s : str) : option str :=
  match url_with (lit "https://") s with
  | Some u => Some u
  | None => url_with (lit "http://") s
  end.

(** [re.search] of that pattern: the leftmost place where it matches. *)
Fixpoint search_url (s : str) : option str :=
  match url_at s with
  | Some u => Some u
  | None => match s with
            | [] => None
            | _ :: s' => search_url s'
            end
  end.

End Re.

(** The comparison that folds the ASCII letters and nothing else.  On ASCII
    texts every comparison gives what this one gives; the definitions are
    run with it on the sample inputs below. *)
Definition ascii_fold : Re.IgnoreCase.
Proof.
  refine {| Re.ci_char p c := Re.ascii_lower c =? Re.ascii_lower p |}.
  - reflexivity.
  - intros p c Hpc%N.eqb_eq.
    assert (Hletter : ∀ x, 65 ≤ x ≤ 122 → Py.isspace x = false).
    { intros x Hx. apply not_true_iff_false. unfold Py.isspace.
      rewrite !orb_true_iff, !andb_true_iff, !N.eqb_eq, !N.leb_le. lia. }
    assert (Hlower : ∀ x, Py.isspace (Re.ascii_lower x) = Py.isspace x).
    { intros x. unfold Re.ascii_lower.
      destruct ((65 <=? x) && (x <=? 90)) eqn:E; [|done].
      apply andb_true_iff in E as [H1%N.leb_le H2%N.leb_le].
      rewrite !Hletter; [done|lia..]. }
    by rewrite <- (Hlower c), Hpc, Hlower.
  - intros p c Hpc%N.eqb_eq.
    assert (Hlower : ∀ x, (Re.ascii_lower x =? 44) = (x =? 44)).
    { intros x. unfold Re.ascii_lower.
      destruct ((65 <=? x) && (x <=? 90)) eqn:E; [|done].
      apply andb_true_iff in E as [H1%N.leb_le H2%N.leb_le].
      rewrite !(proj2 (N.eqb_neq _ 44)) by lia. done. }
    by rewrite <- (Hlower c), Hpc, Hlower.
Defined.

(** A text of ASCII characters, and a list of such texts. *)
Definition is_ascii (s : str) : bool := forallb (λ c, c <? 128) s.

Definition all_ascii (l : list str) : bool := forallb is_ascii l.

(** ** Dictionaries

    A Python [dict] keeps its keys in insertion order, and both loops of
    the script iterate over [items()]: a dictionary is the list of its
    items in that order. *)

Module Dict.

Definition t (V : Type) : Type := list (list N * V).

(** [k in d] *)
Definition mem {V} (k : str) (d : t V) : bool :=
  bool_decide (k ∈ d.*1).

(** [d.get(k)] *)
Fixpoint get {V} (k : str) (d : t V) : option V :=
  match d with
  | [] => None
  | (k', v) :: d' => if decide (k' = k) then Some v else get k d'
  end.

(** [d[k] = v]: a new key goes last, a known key keeps its place. *)
Fixpoint set {V} (k : str) (v : V) (d : t V) : t V :=
  match d with
  | [] => [(k, v)]
  | (k', v') :: d' =>
      if decide (k' = k) then (k, v) :: d' else (k', v') :: set k v d'
  end.

(** [d[k].append(x)] for a key that is present. *)
Fixpoint append_to {V} (k : str) (x : V) (d : t (list V)) : t (list V) :=
  match d with
  | [] => []
  | (k', l) :: d' =>
      if decide (k' = k) then (k', l ++ [x]) :: d'
      else (k', l) :: append_to k x d'
  end.

End Dict.

(** ** Constants of the script *)

Definition EXTINF : str := lit "#EXTINF:-1".
(** The texts [group-title=] and [tvg-name=] with their opening quote. *)
Definition GROUP_TITLE : str := lit "group-title=" ++ [34].
Definition TVG_NAME : str := lit "tvg-name=" ++ [34].
(** The default group, U+672A U+5206 U+7EC4. *)
Definition UNGROUPED : str := [26410; 20998; 32452].
(** The name of the catch-all category, U+5176 U+5B83. *)
Definition OTHER : str := [20854; 23427].
Definition GENRE : str := lit "#genre#".
Definition GENRE_MARK : str := lit ",#genre#".
Definition NL : str := [10].
Definition OUTPUT_PATH : str := lit "TV/live.txt".

(** ** load_source_urls

    The source list, when the file exists and can be read, is the list of
    its lines.  The addresses the function prints are not recorded. *)

Definition DEFAULT_SOURCE : str :=
  lit "https://live.fanmingming.com/tv/m3u/ipv6.m3u".

Definition source_line (urls : list str) (raw : str) : list str :=
  let line := Py.strip raw in
  if bool_decide (line = []) || Py.startswith (lit "#") line then urls
  else if Py.startswith (lit "http") line then urls ++ [line]
  else urls.

Definition load_source_urls (file : option (list str)) : list str :=
  match file with
  | None => [DEFAULT_SOURCE]
  | Some lines =>
      match foldl source_line [] lines with
      | [] => [DEFAULT_SOURCE]
      | url :: urls => url :: urls
      end
  end.

(** ** load_channel_mapping

    The mapping file, when it exists, is the list of its lines. *)

(** [line.split(",", 1)] when [line] has a comma: the text before the first
    comma and the text after it. *)
Fixpoint split_once (line : str) : option (str * str) :=
  match line with
  | [] => None
  | c :: s =>
      if c =? 44 then Some ([], s)
      else (λ p, (c :: fst p, snd p)) <$> split_once s
  end.

Definition mapping_line (mapping : gmap (list N) (list N)) (raw : str)
  : gmap (list N) (list N) :=
  let line := Py.strip raw in
  if bool_decide (line = []) then mapping
  else match split_once line with
       | None => mapping
       | Some (old_name, new_name) =>
           <[Py.strip old_name := Py.strip new_name]> mapping
       end.

Definition load_channel_mapping (file : option (list str))
  : gmap (list N) (list N) :=
  match file with
  | None => ∅
  | Some lines => foldl mapping_line ∅ lines
  end.

(** ** load_categories_from_template

    The template file, when it exists, is the list of its lines. *)

Record template_state := {
  categories_of : Dict.t (list str);
  current_category : option str
}.

Definition template_line (st : template_state) (raw : str) : template_state :=
  let line := Py.strip raw in
  if bool_decide (line = []) then st
  else if Py.contains GENRE_MARK line then
    let category := Py.strip (hd [] (Py.split 44 line)) in
    {| categories_of := Dict.set category [] (categories_of st);
       current_category := Some category |}
  else
    match current_category st with
    | Some category =>
        if bool_decide (category = []) then st
        else
          let channel := Py.strip line in
          if bool_decide (channel = []) then st
          else {| categories_of := Dict.append_to category channel (categories_of st);
                  current_category := current_category st |}
    | None => st
    end.

Definition load_categories_from_template (file : option (list str))
  : Dict.t (list str) :=
  match file with
  | None => []
  | Some lines =>
      categories_of
        (foldl template_line {| categories_of := []; current_category := None |} lines)
  end.

(** ** parse_m3u_to_txt *)

Record parser_state := {
  channels : Dict.t (list str);
  current_group : str
}.

(** The three fields of an entry, as the loop body computes them for the
    stripped metadata line [line]. *)
Definition entry_group (current : str) (line : str) : str :=
  default current (Re.search_quoted GROUP_TITLE line).

Definition entry_raw_name (line : str) : str :=
  default (Py.strip (Py.last_field (Py.split 44 line)))
          (Re.search_quoted TVG_NAME line).

Definition entry_name (mapping : gmap (list N) (list N)) (line : str) : str :=
  let name := entry_raw_name line in
  default name (mapping !! name).

(** The url of the entry whose metadata line is [lines[i]], when the entry
    is kept. *)
Definition entry_url (lines : list str) (i : nat) : option str :=
  match lines !! (i + 1)%nat with
  | Some next =>
      let url := Py.strip next in
      if bool_decide (url ≠ []) && negb (Py.startswith (lit "#") url)
      then Some url else None
  | None => None
  end.

(** One round of the loop [for i in range(len(lines))]. *)
Definition parse_line (mapping : gmap (list N) (list N)) (lines : list str)
    (st : parser_state) (i : nat) : parser_state :=
  match lines !! i with
  | None => st
  | Some raw =>
      let line := Py.strip raw in
      if Py.startswith EXTINF line then
        let group := entry_group (current_group st) line in
        let name := entry_name mapping line in
        match entry_url lines i with
        | Some url =>
            let chans :=
              if Dict.mem group (channels st) then channels st
              else Dict.set group [] (channels st) in
            {| channels := Dict.append_to group (name ++ lit "," ++ url) chans;
               current_group := group |}
        | None => st
        end
      else st
  end.

Definition parse_lines (mapping : gmap (list N) (list N)) (lines : list str)
  : parser_state :=
  foldl (parse_line mapping lines)
        {| channels := []; current_group := UNGROUPED |}
        (seq 0 (length lines)).

(** The second loop: one block per group. *)
Definition render (chans : Dict.t (list str)) : str :=
  foldl (λ txt item,
           (txt ++ fst item ++ GENRE_MARK ++ NL)
             ++ (Py.join NL (snd item) ++ NL ++ NL))
        [] chans.

Definition parse_m3u_to_txt (mapping : gmap (list N) (list N))
    (m3u_content : str) : str :=
  Py.strip (render (channels (parse_lines mapping (Py.split 10 m3u_content)))).

(** ** main: aggregation and classification *)

(** What [fetch_m3u_content] returns for one source: the parsed body of the
    response, or the empty text when the address has no url in it or the
    request failed ([response] is [None]). *)
Definition fetch_m3u_content (mapping : gmap (list N) (list N))
    (response : option str) : str :=
  match response with
  | Some body => parse_m3u_to_txt mapping body
  | None => []
  end.

(** [fetch_m3u_content(url)]: [net] gives the body of the response to a
    request, or [None] when the request fails. *)
Definition fetch_source (net : str → option str)
    (mapping : gmap (list N) (list N)) (url : str) : str :=
  match Re.search_url url with
  | None => []
  | Some m3u_url => fetch_m3u_content mapping (net m3u_url)
  end.

Definition aggregate (contents : list str) : str :=
  foldl (λ all_content content,
           if bool_decide (content ≠ []) then all_content ++ (content ++ NL ++ NL)
           else all_content)
        [] contents.

(** [all_lines], from the lines of the aggregated text. *)
Definition keep_line (line : str) : bool :=
  bool_decide (Py.strip line ≠ []) && negb (Py.contains GENRE line).

Definition all_lines_of (all_content : str) : list str :=
  Py.strip <$> filter (λ line, keep_line line = true) (Py.splitlines all_content).

Record classifier_state := {
  sorted_content : list str;
  matched_lines : gset (list N)
}.

Definition emit (line : str) (st : classifier_state) : classifier_state :=
  {| sorted_content := sorted_content st ++ [line];
     matched_lines := matched_lines st |}.

(** The loops of [main] and the run itself, for a comparison of characters
    under [re.IGNORECASE]. *)
Section Classification.

Context {ic : Re.IgnoreCase}.

(** [for line in all_lines: if re.match(...): append; add] *)
Definition scan_channel (all_lines : list str) (st : classifier_state)
    (channel : str) : classifier_state :=
  foldl (λ st line,
           if Re.match_channel channel line then
             {| sorted_content := sorted_content st ++ [line];
                matched_lines := {[ line ]} ∪ matched_lines st |}
           else st)
        st all_lines.

(** [for category, channels in categories.items(): ...] *)
Definition scan_category (all_lines : list str) (st : classifier_state)
    (item : str * list str) : classifier_state :=
  let st := emit (fst item ++ GENRE_MARK) st in
  let st := foldl (scan_channel all_lines) st (snd item) in
  emit [] st.

Definition scan_template (categories : Dict.t (list str)) (all_lines : list str)
  : classifier_state :=
  foldl (scan_category all_lines)
        {| sorted_content := []; matched_lines := ∅ |} categories.

Definition other_lines_of (all_lines : list str) (matched : gset (list N))
  : list str :=
  filter (λ line, line ∉ matched) all_lines.

(** Lines 170 to 195 of the script: from the aggregated text and the
    template to the list that is written, with the set of matched lines. *)
Definition classify (categories : Dict.t (list str)) (all_content : str)
  : classifier_state :=
  let all_lines := all_lines_of all_content in
  let st := scan_template categories all_lines in
  let other_lines := other_lines_of all_lines (matched_lines st) in
  match other_lines with
  | [] => st
  | _ :: _ =>
      {| sorted_content := (sorted_content st ++ [OTHER ++ GENRE_MARK])
                             ++ other_lines ++ [[]];
         matched_lines := matched_lines st |}
  end.

(** The messages [main] prints: the number of source addresses, no
    content from any source, no category in the template, the document
    saved, the two counts, the failure to save. *)
Inductive message :=
  | MsgSources (n : nat)
  | MsgNoContent
  | MsgNoCategories
  | MsgSaved (path : str)
  | MsgStats (matched others : nat)
  | MsgSaveFailed.

(** What [main] does to the outside: [os.makedirs], [print], the text
    [text] written to the file [path], and an attempt to write the file
    [path] in which [open] or [write] raised, so that the text is not
    saved. *)
Inductive event :=
  | EvMakeDirs
  | EvPrint (m : message)
  | EvWrite (path : str) (text : str)
  | EvWriteFailed (path : str).

(** What a run depends on outside the script: whether the directory is
    there, the response to each source address in the order of the source
    list, the name mapping, the lines of the template file when there is
    one, and whether the file system accepts the write ([open] and
    [write] return) or refuses it (one of them raises). *)
Record world := {
  tv_dir_exists : bool;
  responses : list (option (list N));
  mapping_file : gmap (list N) (list N);
  template_file : option (list (list N));
  write_ok : bool
}.

Definition main (w : world) : list event :=
  let mk := if tv_dir_exists w then [] else [EvMakeDirs] in
  let start := mk ++ [EvPrint (MsgSources (length (responses w)))] in
  let all_content :=
    aggregate (fetch_m3u_content (mapping_file w) <$> responses w) in
  if bool_decide (all_content = []) then start ++ [EvPrint MsgNoContent]
  else
    let categories := load_categories_from_template (template_file w) in
    match categories with
    | [] => start ++ [EvPrint MsgNoCategories]
    | _ :: _ =>
        let st := classify categories all_content in
        let others :=
          other_lines_of (all_lines_of all_content) (matched_lines st) in
        start
          ++ (if write_ok w
              then [EvWrite OUTPUT_PATH (Py.join NL (sorted_content st));
                    EvPrint (MsgSaved OUTPUT_PATH);
                    EvPrint (MsgStats (size (matched_lines st)) (length others))]
              else [EvWriteFailed OUTPUT_PATH; EvPrint MsgSaveFailed])
    end.

(** ** The layout of the classified document, in the words of the
    specification

    These definitions describe the document by its parts; the theorems
    below compare them with what the loops of [main] build. *)

(** The lines appended for one expected name: the lines the name matches,
    in the order of [all_lines]. *)
Definition slot_lines (all_lines : list str) (channel : str) : list str :=
  filter (λ line, Re.match_channel channel line = true) all_lines.

(** The lines of one category, slot after slot. *)
Definition category_lines (all_lines : list str) (chans : list str) : list str :=
  concat (slot_lines all_lines <$> chans).

(** Header, lines, blank separator. *)
Definition category_block (all_lines : list str) (item : str * list str)
  : list str :=
  (fst item ++ GENRE_MARK) :: category_lines all_lines (snd item) ++ [[]].

Definition template_blocks (categories : Dict.t (list str))
    (all_lines : list str) : list str :=
  concat (category_block all_lines <$> categories).

(** Every expected name of the template, category after category. *)
Definition expected_names (categories : Dict.t (list str)) : list str :=
  concat (snd <$> categories).

(** The number of expected-name slots of the whole template that match
    [line]. *)
Definition matching_slots (categories : Dict.t (list str)) (line : str) : nat :=
  length (filter (λ channel, Re.match_channel channel line = true)
                 (expected_names categories)).

(** The lines no slot matches, in the order of [all_lines]. *)
Definition unmatched (categories : Dict.t (list str)) (all_lines : list str)
  : list str :=
  filter (λ line, matching_slots categories line = 0%nat) all_lines.

Definition catch_all_block (others : list str) : list str :=
  match others with
  | [] => []
  | _ :: _ => (OTHER ++ GENRE_MARK) :: others ++ [[]]
  end.

(** How many times the text [x] occurs in a list of lines. *)
Definition occurrences (x : str) (l : list str) : nat :=
  length (filter (λ y, y = x) l).

(** The texts written by a run. *)
Definition writes (evs : list event) : list (str * str) :=
  omap (λ e, match e with EvWrite p t => Some (p, t) | _ => None end) evs.

(** ** The name field of a line, in the words of the specification *)

(** The text before the first comma of [line], when it has a comma. *)
Fixpoint name_field (line : str) : option str :=
  match line with
  | [] => None
  | c :: s => if c =? 44 then Some [] else (c ::.) <$> name_field s
  end.

(** The text [a] equals the expected name [b] up to the case of the
    letters, as [re.IGNORECASE] compares them: they have the same length
    and each character of [b], read as a character of the pattern, accepts
    the character of [a] at its place. *)
Fixpoint ci_equal (a b : str) : bool :=
  match a, b with
  | [], [] => true
  | c :: a', d :: b' => Re.ci_char d c && ci_equal a' b'
  | _, _ => false
  end.

End Classification.

(** ** The entries of a playlist, in the words of the specification *)

(** The state of the parser when it reaches [lines[n]]. *)
Definition parser_before (mapping : gmap (list N) (list N)) (lines : list str)
    (n : nat) : parser_state :=
  foldl (parse_line mapping lines)
        {| channels := []; current_group := UNGROUPED |} (seq 0 n).

(** The number of records in the groups. *)
Definition record_count (chans : Dict.t (list str)) : nat :=
  length (concat (snd <$> chans)).

(** [lines[k]], stripped, when it is a metadata line. *)
Definition metadata_line (lines : list str) (k : nat) : option str :=
  match lines !! k with
  | Some raw =>
      if Py.startswith EXTINF (Py.strip raw) then Some (Py.strip raw) else None
  | None => None
  end.

(** The group title that [lines[k]] shows: it is a metadata line and
    has the attribute. *)
Definition group_seen_at (lines : list str) (k : nat) : option str :=
  match metadata_line lines k with
  | Some line => Re.search_quoted GROUP_TITLE line
  | None => None
  end.

(** The last group title shown before [lines[n]]. *)
Fixpoint last_group_seen (lines : list str) (n : nat) : option str :=
  match n with
  | O => None
  | S k => match group_seen_at lines k with
           | Some g => Some g
           | None => last_group_seen lines k
           end
  end.

(** The group title that [lines[k]] establishes: it is a metadata line,
    its entry is kept, and it has the attribute. *)
Definition group_kept_at (lines : list str) (k : nat) : option str :=
  match entry_url lines k with
  | Some _ => group_seen_at lines k
  | None => None
  end.

(** The last group title established before [lines[n]]. *)
Fixpoint last_group_kept (lines : list str) (n : nat) : option str :=
  match n with
  | O => None
  | S k => match group_kept_at lines k with
           | Some g => Some g
           | None => last_group_kept lines k
           end
  end.

(** ** The source list and the mapping file, line by line *)

(** The lines of the source list that, stripped, start with [http]. *)
Definition http_lines (lines : list str) : list str :=
  filter (λ line, Py.startswith (lit "http") line = true) (Py.strip <$> lines).

(** What one line of the mapping file says: nothing when it is blank or
    has no comma, and otherwise the stripped texts before and after its
    first comma. *)
Definition mapping_entry (raw : str) : option (str * str) :=
  let line := Py.strip raw in
  if bool_decide (line = []) then None
  else (λ p, (Py.strip (fst p), Py.strip (snd p))) <$> split_once line.

Definition mapping_entries (lines : list str) : list (str * str) :=
  omap mapping_entry lines.

(** ** The template file, line by line *)

(** [raw] is a header line of the template file. *)
Definition is_header (raw : str) : bool :=
  Py.contains GENRE_MARK (Py.strip raw).

(** The category a header line names. *)
Definition header_category (raw : str) : str :=
  Py.strip (hd [] (Py.split 44 (Py.strip raw))).

(** The lines of [rest], stripped, without the blank ones. *)
Definition name_lines (rest : list str) : list str :=
  filter (λ line, line ≠ []) (Py.strip <$> rest).

(** ** The entries a playlist keeps *)

(** The entry whose metadata line is [lines[i]], when it is kept: its
    group, which is its own group title or else the group title of the last
    entry kept before it that has one, and its record. *)
Definition kept_entry (mapping : gmap (list N) (list N)) (lines : list str)
    (i : nat) : option (str * str) :=
  match metadata_line lines i, entry_url lines i with
  | Some line, Some url =>
      Some (default (default UNGROUPED (last_group_kept lines i))
                    (Re.search_quoted GROUP_TITLE line),
            entry_name mapping line ++ lit "," ++ url)
  | _, _ => None
  end.

(** The entries kept among the first [n] lines, in the order of the
    document. *)
Definition kept_entries (mapping : gmap (list N) (list N)) (lines : list str)
    (n : nat) : list (str * str) :=
  omap (kept_entry mapping lines) (seq 0 n).

(** The records of the entries of group [g], in the order of the entries. *)
Definition group_records (g : str) (entries : list (str * str)) : list str :=
  snd <$> filter (λ e, fst e = g) entries.

(** The groups of a list, each at the place where it is first seen. *)
Definition first_seen (groups : list str) : list str :=
  foldl (λ seen g, if decide (g ∈ seen) then seen else seen ++ [g]) [] groups.

(** ** Lines and record sets *)

(** A text without any line boundary of [str.splitlines]. *)
Definition no_break (s : str) : Prop :=
  Forall (λ c, Py.islinebreak c = false) s.

(** What a list of lines gives to the record set: the lines kept,
    stripped. *)
Definition record_set (lines : list str) : list str :=
  Py.strip <$> filter (λ line, keep_line line = true) lines.

(** The records of a response that reach the classifier: those of its
    playlist, group after group, stripped, without the ones that contain
    [#genre#]; none when the request failed. *)
Definition source_records (mapping : gmap (list N) (list N))
    (response : option str) : list str :=
  match response with
  | Some body =>
      Py.strip <$> filter (λ record, Py.contains GENRE record = false)
        (concat (snd <$> channels (parse_lines mapping (Py.split 10 body))))
  | None => []
  end.

(** ** Sample inputs *)

(** A template file listing one channel under two categories. *)
Definition template_twice : list str :=
  [lit "A,#genre#"; lit "CCTV1"; lit "B,#genre#"; lit "CCTV1"].

Definition cctv1_line : str := lit "CCTV1,http://a".

(** A playlist with two entries and the template of one category that
    expects the first of them. *)
Definition news_playlist : str :=
  lit "#EXTINF:-1,CNN" ++ NL ++ lit "http://a" ++ NL
  ++ lit "#EXTINF:-1,BBC" ++ NL ++ lit "http://b".

Definition news_world : world :=
  {| tv_dir_exists := true;
     responses := [Some news_playlist];
     mapping_file := ∅;
     template_file := Some [lit "News,#genre#"; lit "CNN"];
     write_ok := true |}.

(** The same run when the output file cannot be written. *)
Definition readonly_world : world :=
  {| tv_dir_exists := true;
     responses := [Some news_playlist];
     mapping_file := ∅;
     template_file := Some [lit "News,#genre#"; lit "CNN"];
     write_ok := false |}.

(** A run whose only source cannot be fetched. *)
Definition offline_world : world :=
  {| tv_dir_exists := false;
     responses := [None];
     mapping_file := ∅;
     template_file := Some [lit "News,#genre#"; lit "CNN"];
     write_ok := true |}.

(** A template that expects a channel whose name has a comma, and a
    playlist with that channel. *)
Definition sky_template : list str := [lit "UK,#genre#"; lit "Sky News, HD"].

Definition sky_playlist : str :=
  lit "#EXTINF:-1 tvg-name=" ++ [34] ++ lit "Sky News, HD" ++ [34]
  ++ lit ",Sky" ++ NL ++ lit "http://s".

Definition sky_line : str := lit "Sky News, HD,http://s".

(** A playlist whose second entry has a group title and no url. *)
Definition dropped_group_playlist : str :=
  lit "#EXTINF:-1 group-title=" ++ [34] ++ lit "A" ++ [34] ++ lit ",ch1" ++ NL
  ++ lit "http://1" ++ NL
  ++ lit "#EXTINF:-1 group-title=" ++ [34] ++ lit "B" ++ [34] ++ lit ",ch2" ++ NL
  ++ lit "#EXTINF:-1,ch3" ++ NL
  ++ lit "http://3".

(** A playlist whose url line has spaces around the url. *)
Definition padded_playlist : str :=
  lit "#EXTINF:-1,ch" ++ NL ++ lit "  http://a  ".

(** The scenario of the specification for the name mapping. *)
Definition cctv_mapping : gmap (list N) (list N) :=
  {[ lit "CCTV-1" := lit "CCTV1" ]}.

Definition cctv_world : world :=
  {| tv_dir_exists := true;
     responses := [Some (lit "#EXTINF:-1,CCTV-1" ++ NL ++ lit "http://a")];
     mapping_file := cctv_mapping;
     template_file := Some [lit "CCTV,#genre#"; lit "CCTV1"];
     write_ok := true |}.

(** An aggregated text of one group header and two channel lines, and the
    template of the specification's scenario. *)
Definition news_content : str :=
  lit "News,#genre#" ++ NL ++ lit "CNN,http://a" ++ NL ++ lit "BBC,http://b".

Definition news_categories : Dict.t (list str) := [(lit "News", [lit "CNN"])].

(** An aggregated text with a channel line whose name has [#genre#] in it,
    and a template that expects that name. *)
Definition genre_line : str := lit "Movies #genre# HD,http://m".

Definition genre_content : str := genre_line ++ NL ++ lit "CNN,http://a".

Definition genre_categories : Dict.t (list str) :=
  [(lit "News", [lit "Movies #genre# HD"; lit "CNN"])].

(** * Properties *)

(** ** The loops of the classifier *)

Section Classifier.

Context {ic : Re.IgnoreCase}.

Variable all_lines : list (list N).

Lemma scan_channel_fold (ls : list str) (st : classifier_state) (channel : str) :
  foldl (λ st line,
           if Re.match_channel channel line then
             {| sorted_content := sorted_content st ++ [line];
                matched_lines := {[ line ]} ∪ matched_lines st |}
           else st) st ls
  = {| sorted_content := sorted_content st ++ slot_lines ls channel;
       matched_lines := list_to_set (slot_lines ls channel) ∪ matched_lines st |}.
Proof.
  revert st. induction ls as [|line ls IH]; intros st; simpl.
  - destruct st; simpl. by rewrite app_nil_r, (left_id_L ∅ (∪)).
  - rewrite IH. unfold slot_lines. rewrite filter_cons.
    destruct (Re.match_channel channel line) eqn:E; simpl.
    + rewrite <- app_assoc. simpl. f_equal. set_solver.
    + reflexivity.
Qed.

Lemma scan_channel_eq (st : classifier_state) (channel : str) :
  scan_channel all_lines st channel
  = {| sorted_content := sorted_content st ++ slot_lines all_lines channel;
       matched_lines :=
         list_to_set (slot_lines all_lines channel) ∪ matched_lines st |}.
Proof. apply scan_channel_fold. Qed.

Lemma scan_channels_eq (chans : list str) (st : classifier_state) :
  foldl (scan_channel all_lines) st chans
  = {| sorted_content := sorted_content st ++ category_lines all_lines chans;
       matched_lines :=
         list_to_set (category_lines all_lines chans) ∪ matched_lines st |}.
Proof.
  revert st. induction chans as [|channel chans IH]; intros st; simpl.
  - destruct st; simpl. by rewrite app_nil_r, (left_id_L ∅ (∪)).
  - rewrite IH, scan_channel_eq. simpl. unfold category_lines. simpl.
    rewrite <- app_assoc. f_equal. rewrite list_to_set_app_L. set_solver.
Qed.

Lemma scan_category_eq (st : classifier_state) (item : str * list str) :
  scan_category all_lines st item
  = {| sorted_content := sorted_content st ++ category_block all_lines item;
       matched_lines :=
         list_to_set (category_lines all_lines (snd item)) ∪ matched_lines st |}.
Proof.
  unfold scan_category, emit. rewrite scan_channels_eq. simpl.
  unfold category_block. f_equal.
  rewrite <- !app_assoc. reflexivity.
Qed.

Lemma scan_categories_eq (categories : Dict.t (list str)) (st : classifier_state) :
  foldl (scan_category all_lines) st categories
  = {| sorted_content := sorted_content st ++ template_blocks categories all_lines;
       matched_lines :=
         list_to_set (category_lines all_lines (expected_names categories))
           ∪ matched_lines st |}.
Proof.
  revert st. induction categories as [|item categories IH]; intros st; simpl.
  - destruct st; simpl. by rewrite app_nil_r, (left_id_L ∅ (∪)).
  - rewrite IH, scan_category_eq. simpl.
    unfold template_blocks, expected_names, category_lines. simpl.
    rewrite <- app_assoc. f_equal.
    rewrite fmap_app, concat_app, list_to_set_app_L. set_solver.
Qed.

Lemma scan_template_eq (categories : Dict.t (list str)) :
  scan_template categories all_lines
  = {| sorted_content := template_blocks categories all_lines;
       matched_lines :=
         list_to_set (category_lines all_lines (expected_names categories)) |}.
Proof.
  unfold scan_template. rewrite scan_categories_eq. simpl.
  by rewrite (right_id_L ∅ (∪)).
Qed.

End Classifier.

(** ** ASCII texts

    When the expected names and the lines of the record set are ASCII
    texts, the classifier gives the same document and the same set of
    matched lines whatever the case tables are. *)

Section Ascii.

Context {ic : Re.IgnoreCase}.

Lemma is_ascii_cons (c : char) (s : str) :
  is_ascii (c :: s) = true ↔ c < 128 ∧ is_ascii s = true.
Proof.
  unfold is_ascii. cbn [forallb]. by rewrite andb_true_iff, N.ltb_lt.
Qed.

Lemma all_ascii_cons (x : str) (l : list str) :
  all_ascii (x :: l) = true ↔ is_ascii x = true ∧ all_ascii l = true.
Proof. unfold all_ascii. cbn [forallb]. by rewrite andb_true_iff. Qed.

Lemma all_ascii_app (l1 l2 : list str) :
  all_ascii (l1 ++ l2) = true ↔ all_ascii l1 = true ∧ all_ascii l2 = true.
Proof. unfold all_ascii. by rewrite forallb_app, andb_true_iff. Qed.

Lemma ws_star_ascii (k1 k2 : str → bool) (s : str) :
  (∀ t, is_ascii t = true → k1 t = k2 t) → is_ascii s = true →
  Re.ws_star k1 s = Re.ws_star k2 s.
Proof.
  intros Hk. induction s as [|c s IH]; intros Hs; simpl.
  - by apply Hk.
  - rewrite (Hk (c :: s) Hs). apply is_ascii_cons in Hs as [_ Hs].
    by rewrite IH.
Qed.

Lemma literal_ci_ascii (p : str) (k : str → bool) (s : str) :
  is_ascii p = true → is_ascii s = true →
  Re.literal_ci p k s = Re.literal_ci (ic := ascii_fold) p k s.
Proof.
  revert s. induction p as [|a p IH]; intros [|c s] Hp Hs; simpl; try done.
  apply is_ascii_cons in Hp as [Ha Hp]. apply is_ascii_cons in Hs as [Hc Hs].
  by rewrite (Re.ci_char_ascii a c Ha Hc), IH.
Qed.

Lemma match_channel_ascii (channel line : str) :
  is_ascii channel = true → is_ascii line = true →
  Re.match_channel channel line
  = Re.match_channel (ic := ascii_fold) channel line.
Proof.
  intros Hc Hl. unfold Re.match_channel. apply ws_star_ascii; [|done].
  intros t Ht. by apply literal_ci_ascii.
Qed.

Lemma scan_channel_ascii (all_lines : list str) (st : classifier_state)
    (channel : str) :
  is_ascii channel = true → all_ascii all_lines = true →
  scan_channel all_lines st channel
  = scan_channel (ic := ascii_fold) all_lines st channel.
Proof.
  intros Hc. unfold scan_channel. revert st.
  induction all_lines as [|line ls IH]; intros st Hl; [done|].
  apply all_ascii_cons in Hl as [Hline Hl]. cbn [foldl].
  by rewrite (match_channel_ascii channel line Hc Hline), IH.
Qed.

Lemma scan_category_ascii (all_lines : list str) (st : classifier_state)
    (item : str * list str) :
  all_ascii (snd item) = true → all_ascii all_lines = true →
  scan_category all_lines st item
  = scan_category (ic := ascii_fold) all_lines st item.
Proof.
  intros Hi Hl. unfold scan_category. f_equal.
  generalize (emit (fst item ++ GENRE_MARK) st). clear st.
  induction (snd item) as [|channel chans IH]; intros st; [done|].
  apply all_ascii_cons in Hi as [Hc Hi]. cbn [foldl].
  by rewrite (scan_channel_ascii all_lines st channel Hc Hl), IH.
Qed.

Lemma scan_template_ascii (categories : Dict.t (list str)) (all_lines : list str) :
  all_ascii (expected_names categories) = true → all_ascii all_lines = true →
  scan_template categories all_lines
  = scan_template (ic := ascii_fold) categories all_lines.
Proof.
  intros Hc Hl. unfold scan_template.
  generalize ({| sorted_content := []; matched_lines := ∅ |}).
  induction categories as [|item categories IH]; intros st; [done|].
  change (expected_names (item :: categories))
    with (snd item ++ expected_names categories) in Hc.
  apply all_ascii_app in Hc as [Hi Hc]. cbn [foldl].
  by rewrite (scan_category_ascii all_lines st item Hi Hl), IH.
Qed.

Lemma classify_ascii (categories : Dict.t (list str)) (all_content : str) :
  all_ascii (expected_names categories) = true →
  all_ascii (all_lines_of all_content) = true →
  classify categories all_content
  = classify (ic := ascii_fold) categories all_content.
Proof.
  intros Hc Hl. unfold classify. by rewrite scan_template_ascii.
Qed.

Lemma main_ascii (w : world) :
  all_ascii (expected_names (load_categories_from_template (template_file w)))
  = true →
  all_ascii (all_lines_of
               (aggregate (fetch_m3u_content (mapping_file w) <$> responses w)))
  = true →
  main w = main (ic := ascii_fold) w.
Proof.
  intros Hc Hl. unfold main. by rewrite classify_ascii.
Qed.

End Ascii.

(** The instances of the theorems at sample inputs are computed with
    [ascii_fold].  The expected names and the lines of the record sets of
    the sample inputs are ASCII texts: by the lemmas above the results are
    the same for every comparison of characters. *)
#[local] Existing Instance ascii_fold | 100.

(** ** Text primitives *)

Lemma startswith_spec (p s : str) :
  Py.startswith p s = true ↔ ∃ b, s = p ++ b.
Proof.
  revert s. induction p as [|a p IH]; intros s; simpl.
  - split; [eauto|done].
  - destruct s as [|c s].
    + split; [done|]. by intros [b Hb].
    + rewrite andb_true_iff, N.eqb_eq, IH. split.
      * intros [-> [b ->]]. eauto.
      * intros [b Hb]. injection Hb as -> ->. eauto.
Qed.

Lemma contains_spec (p s : str) :
  Py.contains p s = true ↔ ∃ a b, s = a ++ p ++ b.
Proof.
  induction s as [|c s IH]; simpl.
  - rewrite orb_false_r, startswith_spec. split.
    + intros [b Hb]. by exists [], b.
    + intros (a & b & Hab). destruct a; [by exists b|done].
  - rewrite orb_true_iff, startswith_spec, IH. split.
    + intros [[b Hb]|(a & b & ->)]; [by exists [], b|by exists (c :: a), b].
    + intros (a & b & Hab). destruct a as [|c' a].
      * left. by exists b.
      * right. injection Hab as -> ->. eauto.
Qed.

Lemma contains_inside (p s a b : str) :
  Py.contains p s = true → Py.contains p (a ++ s ++ b) = true.
Proof.
  rewrite !contains_spec. intros (a' & b' & ->).
  exists (a ++ a'), (b' ++ b). by rewrite <- !app_assoc.
Qed.

Lemma lstrip_spec (s : str) :
  ∃ a, s = a ++ Py.lstrip s ∧ Forall (λ c, Py.isspace c = true) a.
Proof.
  induction s as [|c s (a & Ha & Hws)]; simpl.
  - by exists [].
  - destruct (Py.isspace c) eqn:E.
    + exists (c :: a). split; [simpl; congruence|by constructor].
    + by exists [].
Qed.

Lemma rstrip_spec (s : str) :
  ∃ b, s = Py.rstrip s ++ b ∧ Forall (λ c, Py.isspace c = true) b.
Proof.
  unfold Py.rstrip. destruct (lstrip_spec (rev s)) as (a & Ha & Hws).
  exists (rev a). split.
  - rewrite <- rev_app_distr, <- Ha. by rewrite rev_involutive.
  - apply Forall_forall. intros c Hc. rewrite Forall_forall in Hws.
    apply Hws. by apply list_elem_of_In, in_rev, list_elem_of_In.
Qed.

Lemma strip_spec (s : str) :
  ∃ a b, s = a ++ Py.strip s ++ b
         ∧ Forall (λ c, Py.isspace c = true) a
         ∧ Forall (λ c, Py.isspace c = true) b.
Proof.
  destruct (lstrip_spec s) as (a & Ha & Hwa).
  destruct (rstrip_spec (Py.lstrip s)) as (b & Hb & Hwb).
  exists a, b. unfold Py.strip. by rewrite <- Hb.
Qed.

Lemma contains_strip (p s : str) :
  Py.contains p (Py.strip s) = true → Py.contains p s = true.
Proof.
  intros H. destruct (strip_spec s) as (a & b & Hs & _).
  rewrite Hs. by apply contains_inside.
Qed.

Lemma lstrip_head (s : str) :
  match Py.lstrip s with
  | c :: _ => Py.isspace c = false
  | [] => True
  end.
Proof.
  induction s as [|c s IH]; simpl; [done|].
  by destruct (Py.isspace c) eqn:E.
Qed.

Lemma lstrip_fix (c : char) (s : str) :
  Py.isspace c = false → Py.lstrip (c :: s) = c :: s.
Proof. intros H. simpl. by rewrite H. Qed.

Lemma lstrip_snoc (a : str) (c : char) :
  Py.isspace c = false → Py.lstrip (a ++ [c]) = Py.lstrip a ++ [c].
Proof.
  intros H. induction a as [|d a IH]; simpl.
  - by rewrite H.
  - by destruct (Py.isspace d).
Qed.

Lemma lstrip_idem (s : str) : Py.lstrip (Py.lstrip s) = Py.lstrip s.
Proof.
  pose proof (lstrip_head s) as H. destruct (Py.lstrip s); [done|].
  by apply lstrip_fix.
Qed.

Lemma rstrip_idem (s : str) : Py.rstrip (Py.rstrip s) = Py.rstrip s.
Proof. unfold Py.rstrip. by rewrite rev_involutive, lstrip_idem. Qed.

Lemma rstrip_cons (c : char) (s : str) :
  Py.isspace c = false → Py.rstrip (c :: s) = c :: Py.rstrip s.
Proof.
  intros H. unfold Py.rstrip. simpl.
  by rewrite lstrip_snoc, rev_app_distr.
Qed.

Lemma strip_idem (s : str) : Py.strip (Py.strip s) = Py.strip s.
Proof.
  unfold Py.strip. pose proof (lstrip_head s) as H.
  destruct (Py.lstrip s) as [|c u] eqn:E; [done|].
  rewrite (rstrip_cons c u H), (lstrip_fix c _ H).
  by rewrite <- (rstrip_cons c u H), rstrip_idem.
Qed.

(** Stripping removes whitespace only: a text without whitespace that
    occurs in [s] occurs in [s.strip()]. *)
Lemma lstrip_keeps_inside (p s : str) :
  p ≠ [] → Forall (λ c, Py.isspace c = false) p →
  (∃ a b, s = a ++ p ++ b) → ∃ a b, Py.lstrip s = a ++ p ++ b.
Proof.
  intros Hp Hns. induction s as [|c s IH]; intros (a & b & Hs).
  - by destruct a, p.
  - simpl. destruct (Py.isspace c) eqn:E; [|by exists a, b].
    apply IH. destruct a as [|c' a].
    + destruct p as [|c' p]; [done|]. injection Hs as -> _.
      apply Forall_cons in Hns as [Hc _]. congruence.
    + injection Hs as _ ->. by exists a, b.
Qed.

Lemma strip_keeps_inside (p s : str) :
  p ≠ [] → Forall (λ c, Py.isspace c = false) p →
  (∃ a b, s = a ++ p ++ b) → Py.contains p (Py.strip s) = true.
Proof.
  intros Hp Hns Hs. apply contains_spec.
  apply (lstrip_keeps_inside p s Hp Hns) in Hs as (a & b & Hl).
  unfold Py.strip, Py.rstrip.
  destruct (lstrip_keeps_inside (rev p) (rev (Py.lstrip s))) as (a' & b' & Hr).
  - by destruct p using rev_ind; [|rewrite rev_app_distr].
  - apply Forall_forall. intros c Hc. rewrite Forall_forall in Hns.
    apply Hns. by apply list_elem_of_In, in_rev, list_elem_of_In.
  - exists (rev b), (rev a). rewrite Hl, !rev_app_distr. by rewrite <- app_assoc.
  - exists (rev b'), (rev a'). rewrite Hr, !rev_app_distr, rev_involutive.
    by rewrite <- app_assoc.
Qed.

Lemma header_contains_genre (category : str) :
  Py.contains GENRE (category ++ GENRE_MARK) = true.
Proof.
  apply contains_spec. exists (category ++ lit ","), [].
  by rewrite <- app_assoc.
Qed.

(** ** Stripped texts *)

Lemma lstrip_ws (a s : str) :
  Forall (λ c, Py.isspace c = true) a → Py.lstrip (a ++ s) = Py.lstrip s.
Proof.
  induction 1 as [|c a Hc _ IH]; [done|]. simpl. by rewrite Hc.
Qed.

Lemma stripped_head (s : str) :
  Py.strip s = s →
  match s with c :: _ => Py.isspace c = false | [] => True end.
Proof.
  unfold Py.strip. intros H. pose proof (lstrip_head s) as Hh.
  destruct (Py.lstrip s) as [|d u]; [by rewrite <- H|].
  rewrite (rstrip_cons d u Hh) in H. by rewrite <- H.
Qed.

Lemma stripped_rstrip (s : str) : Py.strip s = s → Py.rstrip s = s.
Proof.
  intros H. pose proof (stripped_head s H) as Hh. unfold Py.strip in H.
  destruct s as [|c s]; [done|]. by rewrite (lstrip_fix c s Hh) in H.
Qed.

Lemma stripped_last (s : str) :
  Py.strip s = s →
  match rev s with c :: _ => Py.isspace c = false | [] => True end.
Proof.
  intros H%stripped_rstrip. unfold Py.rstrip in H.
  pose proof (lstrip_head (rev s)) as Hh.
  apply (f_equal (@rev N)) in H. rewrite rev_involutive in H.
  by rewrite H in Hh.
Qed.

Lemma stripped_ends (s : str) :
  match s with c :: _ => Py.isspace c = false | [] => True end →
  match rev s with c :: _ => Py.isspace c = false | [] => True end →
  Py.strip s = s.
Proof.
  intros Hh Hl. unfold Py.strip, Py.rstrip.
  assert (Py.lstrip s = s) as -> by (destruct s; [done|by apply lstrip_fix]).
  assert (Py.lstrip (rev s) = rev s) as ->
    by (destruct (rev s); [done|by apply lstrip_fix]).
  apply rev_involutive.
Qed.

Lemma strip_around (a s b : str) :
  Forall (λ c, Py.isspace c = true) a →
  Forall (λ c, Py.isspace c = true) b →
  Py.strip s = s → Py.strip (a ++ s ++ b) = s.
Proof.
  intros Ha Hb Hs. unfold Py.strip. rewrite lstrip_ws by done.
  pose proof (stripped_head s Hs) as Hh. destruct s as [|c u].
  - simpl. rewrite <- (app_nil_r b), lstrip_ws by done. done.
  - change ((c :: u) ++ b) with (c :: (u ++ b)). rewrite lstrip_fix by done.
    change (c :: (u ++ b)) with ((c :: u) ++ b).
    unfold Py.rstrip. rewrite rev_app_distr, lstrip_ws by by apply Forall_rev.
    by apply stripped_rstrip.
Qed.

(** ** The record set *)

Lemma all_lines_elem (all_content x : str) :
  x ∈ all_lines_of all_content →
  x ≠ [] ∧ Py.contains GENRE x = false.
Proof.
  unfold all_lines_of. rewrite list_elem_of_fmap.
  intros (raw & -> & Hraw). apply list_elem_of_filter in Hraw as [Hkeep _].
  unfold keep_line in Hkeep.
  apply andb_true_iff in Hkeep as [Hne Hg].
  apply bool_decide_eq_true in Hne. apply negb_true_iff in Hg.
  split; [done|].
  destruct (Py.contains GENRE (Py.strip raw)) eqn:E; [|done].
  apply contains_strip in E. congruence.
Qed.

Lemma all_lines_stripped (all_content x : str) :
  x ∈ all_lines_of all_content → Py.strip x = x.
Proof.
  unfold all_lines_of. rewrite list_elem_of_fmap.
  intros (raw & -> & _). apply strip_idem.
Qed.

(** ** Counting *)

Section Layout.

Context {ic : Re.IgnoreCase}.

Lemma occurrences_app (x : str) (l1 l2 : list str) :
  occurrences x (l1 ++ l2) = (occurrences x l1 + occurrences x l2)%nat.
Proof. unfold occurrences. by rewrite filter_app, length_app. Qed.

Lemma occurrences_cons (x y : str) (l : list str) :
  occurrences x (y :: l)
  = ((if decide (y = x) then 1 else 0) + occurrences x l)%nat.
Proof. unfold occurrences. rewrite filter_cons. by case_decide. Qed.

Lemma occurrences_zero (x : str) (l : list str) :
  x ∉ l → occurrences x l = 0%nat.
Proof.
  induction l as [|y l IH]; [done|].
  rewrite not_elem_of_cons, occurrences_cons. intros [Hne Hl].
  rewrite decide_False by done. by rewrite IH.
Qed.

Lemma occurrences_pos (x : str) (l : list str) :
  x ∈ l → (0 < occurrences x l)%nat.
Proof.
  induction l as [|y l IH]; [by intros ?%elem_of_nil|].
  rewrite occurrences_cons. intros [->|Hl]%elem_of_cons.
  - rewrite decide_True by done. lia.
  - specialize (IH Hl). lia.
Qed.

Lemma occurrences_filter (P : str → Prop) `{!∀ y, Decision (P y)}
    (x : str) (l : list str) :
  occurrences x (filter P l)
  = if decide (P x) then occurrences x l else 0%nat.
Proof.
  induction l as [|y l IH].
  - by case_decide.
  - rewrite filter_cons. destruct (decide (P y)) as [Hy|Hy].
    + rewrite !occurrences_cons, IH. repeat case_decide; subst; done.
    + rewrite IH, occurrences_cons. repeat case_decide; subst; done.
Qed.

Lemma category_lines_cons (all_lines : list str) (channel : str) (chans : list str) :
  category_lines all_lines (channel :: chans)
  = slot_lines all_lines channel ++ category_lines all_lines chans.
Proof. reflexivity. Qed.

Lemma template_blocks_cons (item : str * list str) (categories : Dict.t (list str))
    (all_lines : list str) :
  template_blocks (item :: categories) all_lines
  = category_block all_lines item ++ template_blocks categories all_lines.
Proof. reflexivity. Qed.

Lemma expected_names_cons (item : str * list str) (categories : Dict.t (list str)) :
  expected_names (item :: categories) = snd item ++ expected_names categories.
Proof. reflexivity. Qed.

Lemma occurrences_category_lines (x : str) (all_lines chans : list str) :
  occurrences x (category_lines all_lines chans)
  = (occurrences x all_lines
     * length (filter (λ channel, Re.match_channel channel x = true) chans))%nat.
Proof.
  induction chans as [|channel chans IH].
  - unfold occurrences. simpl. lia.
  - rewrite category_lines_cons, occurrences_app, IH.
    unfold slot_lines. rewrite occurrences_filter, filter_cons.
    case_decide; simpl; lia.
Qed.

Lemma occurrences_template_blocks (x : str) (categories : Dict.t (list str))
    (all_lines : list str) :
  x ≠ [] → Py.contains GENRE x = false →
  occurrences x (template_blocks categories all_lines)
  = (occurrences x all_lines * matching_slots categories x)%nat.
Proof.
  intros Hne Hg. unfold matching_slots.
  induction categories as [|[category chans] categories IH].
  - unfold occurrences. simpl. lia.
  - rewrite template_blocks_cons, expected_names_cons.
    unfold category_block. simpl.
    rewrite occurrences_cons, !occurrences_app, IH, occurrences_category_lines.
    rewrite filter_app, length_app, occurrences_cons.
    rewrite decide_False.
    2:{ intros <-. by rewrite header_contains_genre in Hg. }
    rewrite decide_False by congruence.
    change (occurrences x []) with 0%nat. lia.
Qed.

(** ** Matched and unmatched lines *)

Lemma elem_of_category_lines (x : str) (all_lines chans : list str) :
  x ∈ category_lines all_lines chans
  ↔ x ∈ all_lines ∧ ∃ channel, channel ∈ chans ∧ Re.match_channel channel x = true.
Proof.
  induction chans as [|channel chans IH].
  - split; [by intros ?%elem_of_nil|]. intros (_ & ? & ?%elem_of_nil & _). done.
  - rewrite category_lines_cons, elem_of_app, IH. unfold slot_lines. rewrite list_elem_of_filter.
    split.
    + intros [[Hm Hx]|(Hx & c & Hc & Hm)]; split; try done.
      * exists channel. split; [left|done].
      * exists c. split; [by right|done].
    + intros (Hx & c & Hc & Hm). apply elem_of_cons in Hc as [->|Hc].
      * by left.
      * right. eauto.
Qed.

Lemma matching_slots_pos (categories : Dict.t (list str)) (x : str) :
  matching_slots categories x ≠ 0%nat
  ↔ ∃ channel, channel ∈ expected_names categories
               ∧ Re.match_channel channel x = true.
Proof.
  unfold matching_slots.
  induction (expected_names categories) as [|c l IH].
  - split; [done|]. by intros (? & ?%elem_of_nil & _).
  - rewrite filter_cons. destruct (decide (Re.match_channel c x = true)) as [Hc|Hc].
    + split; [|done]. intros _. exists c. split; [left|done].
    + rewrite IH. split.
      * intros (c' & Hc' & Hm). exists c'. split; [by right|done].
      * intros (c' & [->|Hc']%elem_of_cons & Hm); [done|eauto].
Qed.

Lemma other_lines_unmatched (categories : Dict.t (list str)) (all_lines : list str) :
  other_lines_of all_lines
    (matched_lines (scan_template categories all_lines))
  = unmatched categories all_lines.
Proof.
  rewrite scan_template_eq. simpl. unfold other_lines_of, unmatched.
  assert (Hin : ∀ l : list str, (∀ x, x ∈ l → x ∈ all_lines) →
    filter (λ line, line ∉ (list_to_set
        (category_lines all_lines (expected_names categories)) : gset (list N))) l
    = filter (λ line, matching_slots categories line = 0%nat) l).
  { induction l as [|y l IH]; intros Hl; [done|].
    rewrite !filter_cons, IH by (intros; apply Hl; by right).
    assert (Hy : y ∈ all_lines) by (apply Hl; left).
    destruct (decide (matching_slots categories y = 0%nat)) as [H0|H0].
    - rewrite decide_True; [done|].
      rewrite elem_of_list_to_set, elem_of_category_lines.
      intros (_ & Hex). by apply matching_slots_pos in Hex.
    - rewrite decide_False; [done|]. intros Hn. apply Hn.
      rewrite elem_of_list_to_set, elem_of_category_lines.
      split; [done|]. by apply matching_slots_pos. }
  by apply Hin.
Qed.

(** The whole document, by its parts. *)
Lemma classify_layout (categories : Dict.t (list str)) (all_content : str) :
  sorted_content (classify categories all_content)
  = template_blocks categories (all_lines_of all_content)
    ++ catch_all_block (unmatched categories (all_lines_of all_content)).
Proof.
  unfold classify. rewrite other_lines_unmatched.
  destruct (unmatched categories (all_lines_of all_content)) eqn:E; simpl.
  - rewrite scan_template_eq. simpl. by rewrite app_nil_r.
  - rewrite scan_template_eq. simpl. by rewrite <- app_assoc.
Qed.

Lemma classify_matched (categories : Dict.t (list str)) (all_content : str) :
  matched_lines (classify categories all_content)
  = list_to_set (category_lines (all_lines_of all_content)
                                (expected_names categories)).
Proof.
  unfold classify.
  destruct (other_lines_of _ _); simpl; by rewrite scan_template_eq.
Qed.

(** ** The end of the document *)

Lemma join_blank_last (sep : str) (l : list str) :
  l ≠ [] → Py.join sep (l ++ [[]]) = Py.join sep l ++ sep.
Proof.
  induction l as [|x l IH]; [done|]. intros _.
  destruct l as [|y l].
  - simpl. by rewrite app_nil_r.
  - change (Py.join sep ((x :: y :: l) ++ [[]]))
      with (x ++ sep ++ Py.join sep ((y :: l) ++ [[]])).
    rewrite IH by done.
    change (Py.join sep (x :: y :: l)) with (x ++ sep ++ Py.join sep (y :: l)).
    by rewrite <- !app_assoc.
Qed.

(** ** Runs of main *)

Lemma aggregate_fold (acc : str) (contents : list str) :
  foldl (λ all_content content,
           if bool_decide (content ≠ []) then all_content ++ (content ++ NL ++ NL)
           else all_content) acc contents
  = acc ++ aggregate contents.
Proof.
  unfold aggregate. revert acc.
  induction contents as [|c contents IH] using rev_ind; intros acc.
  - simpl. by rewrite app_nil_r.
  - rewrite !foldl_app. simpl. rewrite IH.
    case_bool_decide; [|done]. simpl. by rewrite <- !app_assoc.
Qed.

Lemma aggregate_nil (contents : list str) :
  aggregate contents = [] ↔ Forall (λ content, content = []) contents.
Proof.
  induction contents as [|c contents IH].
  - split; [by constructor|done].
  - unfold aggregate. simpl. rewrite aggregate_fold.
    case_bool_decide as Hc.
    + split.
      * intros H. apply app_eq_nil in H as [H _]. simpl in H.
        apply app_eq_nil in H as [H _]. done.
      * intros H. by apply Forall_cons in H as [H _].
    + subst c. simpl. rewrite IH. split.
      * by constructor.
      * by intros [_ H]%Forall_cons.
Qed.

Lemma writes_app (e1 e2 : list event) : writes (e1 ++ e2) = writes e1 ++ writes e2.
Proof. apply omap_app. Qed.

Lemma writes_start (w : world) :
  writes ((if tv_dir_exists w then [] else [EvMakeDirs])
            ++ [EvPrint (MsgSources (length (responses w)))]) = [].
Proof. by destruct (tv_dir_exists w). Qed.

(** The four ways a run of [main] goes. *)
Lemma main_cases (w : world) :
  let contents := fetch_m3u_content (mapping_file w) <$> responses w in
  let categories := load_categories_from_template (template_file w) in
  (aggregate contents = [] ∧ writes (main w) = []
     ∧ (EvWriteFailed OUTPUT_PATH ∉ main w)
     ∧ last (main w) = Some (EvPrint MsgNoContent))
  ∨ (aggregate contents ≠ [] ∧ categories = [] ∧ writes (main w) = []
       ∧ (EvWriteFailed OUTPUT_PATH ∉ main w)
       ∧ last (main w) = Some (EvPrint MsgNoCategories))
  ∨ (aggregate contents ≠ [] ∧ categories ≠ [] ∧ write_ok w = true
       ∧ writes (main w)
         = [(OUTPUT_PATH,
             Py.join NL (sorted_content (classify categories (aggregate contents))))])
  ∨ (aggregate contents ≠ [] ∧ categories ≠ [] ∧ write_ok w = false
       ∧ writes (main w) = []
       ∧ EvWriteFailed OUTPUT_PATH ∈ main w
       ∧ last (main w) = Some (EvPrint MsgSaveFailed)).
Proof.
  intros contents categories. unfold main.
  fold contents. fold categories.
  assert (Hstart : ∀ m, EvWriteFailed OUTPUT_PATH
            ∉ ((if tv_dir_exists w then [] else [EvMakeDirs])
               ++ [EvPrint (MsgSources (length (responses w)))])
              ++ [EvPrint m]).
  { intros m Hin%list_elem_of_In.
    destruct (tv_dir_exists w); simpl in Hin; intuition discriminate. }
  case_bool_decide as Hc.
  - left. split; [done|]. split; [|split; [apply Hstart|]].
    + by rewrite writes_app, writes_start.
    + by rewrite last_snoc.
  - right. destruct categories as [|item categories'] eqn:Hcat.
    + left. split; [done|]. split; [done|]. split; [|split; [apply Hstart|]].
      * by rewrite writes_app, writes_start.
      * by rewrite last_snoc.
    + right. destruct (write_ok w).
      * left. repeat split; [done|done|].
        by rewrite writes_app, writes_start.
      * right. repeat split; [done|done|..].
        -- by rewrite writes_app, writes_start.
        -- apply elem_of_app. right. left.
        -- change [EvWriteFailed OUTPUT_PATH; EvPrint MsgSaveFailed]
             with ([EvWriteFailed OUTPUT_PATH] ++ [EvPrint MsgSaveFailed]).
           rewrite !app_assoc. apply last_snoc.
Qed.

(** ** Where each line of the record set goes *)

Lemma occurrences_catch_all (x : str) (others : list str) :
  x ≠ [] → Py.contains GENRE x = false →
  occurrences x (catch_all_block others) = occurrences x others.
Proof.
  intros Hne Hg. destruct others as [|y others]; [done|].
  cbn [catch_all_block].
  rewrite occurrences_cons, occurrences_app, decide_False.
  2:{ intros <-. by rewrite header_contains_genre in Hg. }
  rewrite (occurrences_cons x []), decide_False by congruence.
  change (occurrences x []) with 0%nat. lia.
Qed.

(** C1, as amended.  A line of the record set that occurs [n] times in it
    and is matched by [k] expected-name slots of the template occurs
    [n * k] times under the template categories, once per occurrence under
    each slot that matches it, and in the catch-all [n] times when no slot
    matches it and not at all otherwise: it is never left out and never
    both under a category and in the catch-all, and it is there once per
    occurrence exactly when at most one slot matches it. *)
Theorem classify_line_occurrences (categories : Dict.t (list str))
    (all_content x : str) :
  x ∈ all_lines_of all_content →
  let all_lines := all_lines_of all_content in
  let n := occurrences x all_lines in
  let k := matching_slots categories x in
  (0 < n)%nat
  ∧ sorted_content (classify categories all_content)
    = template_blocks categories all_lines
      ++ catch_all_block (unmatched categories all_lines)
  ∧ occurrences x (template_blocks categories all_lines) = (n * k)%nat
  ∧ occurrences x (catch_all_block (unmatched categories all_lines))
    = (if decide (k = 0%nat) then n else 0%nat)
  ∧ occurrences x (sorted_content (classify categories all_content))
    = (n * Nat.max 1 k)%nat.
Proof.
  intros Hx all_lines n k.
  destruct (all_lines_elem _ _ Hx) as [Hne Hg].
  assert (Hn : (0 < n)%nat) by by apply occurrences_pos.
  assert (Ht : occurrences x (template_blocks categories all_lines) = (n * k)%nat)
    by by apply occurrences_template_blocks.
  assert (Hc : occurrences x (catch_all_block (unmatched categories all_lines))
               = if decide (k = 0%nat) then n else 0%nat).
  { rewrite occurrences_catch_all by done.
    unfold unmatched. by rewrite occurrences_filter. }
  repeat split; try done.
  - apply classify_layout.
  - rewrite classify_layout, occurrences_app.
    fold all_lines. rewrite Ht, Hc. case_decide as Hk.
    + rewrite Hk. simpl. lia.
    + rewrite Nat.max_r by lia. lia.
Qed.

End Layout.

(** The theorem at the line [CCTV1,http://a] and the template that lists
    [CCTV1] under two categories. *)
Lemma classify_line_occurrences_witness :
  cctv1_line ∈ all_lines_of cctv1_line
  ∧ occurrences cctv1_line
      (sorted_content
         (classify (load_categories_from_template (Some template_twice))
                   cctv1_line))
    = 2%nat.
Proof.
  assert (H : cctv1_line ∈ all_lines_of cctv1_line)
    by (apply list_elem_of_In; vm_compute; left; reflexivity).
  split; [exact H|].
  pose proof (classify_line_occurrences
                (load_categories_from_template (Some template_twice))
                cctv1_line cctv1_line H) as (_ & _ & _ & _ & ->).
  vm_compute. reflexivity.
Defined.

(** C1 as stated fails: with [CCTV1] expected under the categories [A] and
    [B], the one line [CCTV1,http://a] of the record set is in the document
    twice, once under each category, whatever the case tables are. *)
Lemma classify_duplicates_line :
  let categories := load_categories_from_template (Some template_twice) in
  categories = [(lit "A", [lit "CCTV1"]); (lit "B", [lit "CCTV1"])]
  ∧ all_lines_of cctv1_line = [cctv1_line]
  ∧ occurrences cctv1_line (all_lines_of cctv1_line) = 1%nat
  ∧ ∀ ic : Re.IgnoreCase,
      sorted_content (classify categories cctv1_line)
      = [lit "A,#genre#"; cctv1_line; [];
         lit "B,#genre#"; cctv1_line; []]
      ∧ occurrences cctv1_line (sorted_content (classify categories cctv1_line))
        = 2%nat.
Proof.
  cbv zeta. split; [by vm_compute|]. split; [by vm_compute|].
  split; [by vm_compute|]. intros ic.
  rewrite classify_ascii by (by vm_compute). by vm_compute.
Qed.

Section Order.

Context {ic : Re.IgnoreCase}.

(** C3.  The document lists the categories in the order of the template;
    under each header come the lines of its expected names, name after name
    in the order of the template; the lines of one name are the lines of
    the record set that the name matches, in the order of the record set;
    a blank line closes each category and the catch-all comes last. *)
Theorem classify_template_order (categories : Dict.t (list str))
    (all_content : str) :
  let all_lines := all_lines_of all_content in
  let st := classify categories all_content in
  sorted_content st
  = concat
      ((λ item,
          (fst item ++ GENRE_MARK)
            :: concat
                 ((λ channel,
                     filter (λ line, Re.match_channel channel line = true)
                            all_lines) <$> snd item)
            ++ [[]]) <$> categories)
    ++ catch_all_block (other_lines_of all_lines (matched_lines st)).
Proof.
  intros all_lines st. unfold st.
  rewrite classify_layout, classify_matched.
  rewrite <- (other_lines_unmatched categories (all_lines_of all_content)).
  by rewrite scan_template_eq.
Qed.

(** The lines of the blocks of the template: headers, lines of the record
    set under them, blank separators. *)
Lemma elem_of_template_blocks (x : str) (categories : Dict.t (list str))
    (all_lines : list str) :
  x ∈ template_blocks categories all_lines
  ↔ ∃ item, item ∈ categories
            ∧ (x = fst item ++ GENRE_MARK
               ∨ x ∈ category_lines all_lines (snd item)
               ∨ x = []).
Proof.
  induction categories as [|item categories IH].
  - split; [by intros ?%elem_of_nil|]. by intros (? & ?%elem_of_nil & _).
  - rewrite template_blocks_cons, elem_of_app, IH. unfold category_block.
    rewrite elem_of_cons, elem_of_app, list_elem_of_singleton. split.
    + intros [H|(item' & Hin & H)].
      * exists item. split; [left|tauto].
      * exists item'. split; [by right|done].
    + intros (item' & [->|Hin]%elem_of_cons & H); [left; tauto|].
      right. by exists item'.
Qed.

Lemma elem_of_catch_all_block (x : str) (others : list str) :
  x ∈ catch_all_block others
  ↔ others ≠ [] ∧ (x = OTHER ++ GENRE_MARK ∨ x ∈ others ∨ x = []).
Proof.
  destruct others as [|y others]; cbn [catch_all_block].
  - split; [by intros ?%elem_of_nil|]. by intros [? _].
  - rewrite elem_of_cons, elem_of_app, list_elem_of_singleton. split.
    + intros H. split; [done|tauto].
    + intros [_ H]. tauto.
Qed.

(** C9.  A line of the aggregated text that is blank once stripped, or that
    contains [#genre#], is not in the record set, neither as it is nor
    stripped.  The document is made of the headers the classifier writes,
    the lines under the categories, blank separators and the catch-all;
    a text that contains [#genre#] is neither among the lines of any
    category nor in the catch-all, so that it is in the document only where
    it is the header of a category of the template or of the catch-all. *)
Theorem genre_lines_excluded (categories : Dict.t (list str))
    (all_content : str) :
  let all_lines := all_lines_of all_content in
  let st := classify categories all_content in
  (∀ raw, raw ∈ Py.splitlines all_content →
     Py.strip raw = [] ∨ Py.contains GENRE raw = true →
     keep_line raw = false ∧ (Py.strip raw ∉ all_lines) ∧ (raw ∉ all_lines))
  ∧ (∀ x, x ∈ all_lines → x ≠ [] ∧ Py.contains GENRE x = false)
  ∧ (∀ x, Py.contains GENRE x = true →
       (∀ item, item ∈ categories → x ∉ category_lines all_lines (snd item))
       ∧ x ∉ other_lines_of all_lines (matched_lines st))
  ∧ sorted_content st
    = concat ((λ item, (fst item ++ GENRE_MARK)
                         :: category_lines all_lines (snd item) ++ [[]])
                <$> categories)
      ++ catch_all_block (other_lines_of all_lines (matched_lines st))
  ∧ (∀ x, Py.contains GENRE x = true →
       x ∈ sorted_content st
       ↔ (∃ item, item ∈ categories ∧ x = fst item ++ GENRE_MARK)
         ∨ (x = OTHER ++ GENRE_MARK
            ∧ other_lines_of all_lines (matched_lines st) ≠ [])).
Proof.
  intros all_lines st.
  assert (Hall : ∀ x, x ∈ all_lines → x ≠ [] ∧ Py.contains GENRE x = false)
    by (intros x; apply all_lines_elem).
  assert (Hdoc : sorted_content st
    = template_blocks categories all_lines
      ++ catch_all_block (other_lines_of all_lines (matched_lines st))).
  { unfold st, all_lines. rewrite classify_layout, classify_matched.
    rewrite <- (other_lines_unmatched categories (all_lines_of all_content)).
    by rewrite scan_template_eq. }
  split; [|split; [exact Hall|split; [|split; [exact Hdoc|]]]].
  - intros raw _ Hraw. split; [|split].
    + unfold keep_line. destruct Hraw as [-> | ->]; [done|].
      by rewrite andb_false_r.
    + intros [Hne Hg]%Hall. destruct Hraw as [H | H]; [done|].
      apply not_true_iff_false in Hg. apply Hg.
      apply contains_spec in H as (a' & b' & Ha').
      apply (strip_keeps_inside GENRE); [done| |by exists a', b'].
      repeat constructor.
    + intros Hin. destruct (Hall _ Hin) as [Hne Hg].
      destruct Hraw as [H | H]; [|congruence].
      apply all_lines_stripped in Hin. congruence.
  - intros x Hx. split.
    + intros item _ Hin. apply elem_of_category_lines in Hin as [Hin _].
      apply Hall in Hin as [_ Hg]. congruence.
    + intros Hin. apply list_elem_of_filter in Hin as [_ Hin].
      apply Hall in Hin as [_ Hg]. congruence.
  - intros x Hx. rewrite Hdoc, elem_of_app, elem_of_template_blocks,
      elem_of_catch_all_block. split.
    + intros [(item & Hitem & [-> | [Hin | ->]])|(Hne & [-> | [Hin | ->]])].
      * left. by exists item.
      * apply elem_of_category_lines in Hin as [Hin _].
        apply Hall in Hin as [_ Hg]. congruence.
      * discriminate Hx.
      * by right.
      * apply list_elem_of_filter in Hin as [_ Hin].
        apply Hall in Hin as [_ Hg]. congruence.
      * discriminate Hx.
    + intros [(item & Hitem & ->) | [-> Hne]].
      * left. exists item. split; [done|by left].
      * right. split; [done|by left].
Qed.

End Order.

(** The theorem at an aggregated text whose first line is a channel line
    with [#genre#] in its name, under a template that expects that name:
    the pattern of the name accepts the line, and the line is neither in
    the record set nor in the document. *)
Lemma genre_lines_excluded_witness :
  let st := classify genre_categories genre_content in
  genre_line ∈ Py.splitlines genre_content
  ∧ Py.contains GENRE genre_line = true
  ∧ Re.match_channel (lit "Movies #genre# HD") genre_line = true
  ∧ (genre_line ∉ all_lines_of genre_content)
  ∧ (genre_line ∉ sorted_content st)
  ∧ sorted_content st = [lit "News,#genre#"; lit "CNN,http://a"; []].
Proof.
  intros st.
  assert (H1 : genre_line ∈ Py.splitlines genre_content)
    by (apply list_elem_of_In; vm_compute; left; reflexivity).
  assert (H2 : Py.contains GENRE genre_line = true) by reflexivity.
  split; [exact H1|]. split; [exact H2|]. split; [reflexivity|].
  destruct (genre_lines_excluded genre_categories genre_content)
    as (Hraw & _ & _ & _ & Hdoc).
  split; [exact (proj2 (proj2 (Hraw _ H1 (or_intror H2))))|].
  split; [|reflexivity].
  intros Hin. apply (Hdoc _ H2) in Hin as [(item & Hitem & Heq)|[Heq _]].
  - apply list_elem_of_singleton in Hitem. subst item. discriminate Heq.
  - discriminate Heq.
Defined.

Section CatchAll.

Context {ic : Re.IgnoreCase}.

(** C10.  The set of matched lines holds the texts of the record set that
    some expected name matches; the catch-all of the document is the record
    set without the texts of that set, in the order of the record set: a
    text that is matched once is in the catch-all at none of its
    occurrences, and a text that no expected name matches is there at each
    of them. *)
Theorem catch_all_by_text (categories : Dict.t (list str)) (all_content : str) :
  let all_lines := all_lines_of all_content in
  let st := classify categories all_content in
  let others := filter (λ line, line ∉ matched_lines st) all_lines in
  (∀ x, x ∈ matched_lines st
        ↔ x ∈ all_lines ∧ ∃ channel, channel ∈ expected_names categories
                                     ∧ Re.match_channel channel x = true)
  ∧ sorted_content st
    = template_blocks categories all_lines ++ catch_all_block others
  ∧ (∀ x, x ∈ matched_lines st → x ∉ others)
  ∧ (∀ x, x ∈ others
          ↔ x ∈ all_lines ∧ ∀ channel, channel ∈ expected_names categories →
                                       Re.match_channel channel x = false)
  ∧ (∀ x, x ∉ matched_lines st → occurrences x others = occurrences x all_lines).
Proof.
  intros all_lines st others.
  assert (Hm : ∀ x, x ∈ matched_lines st
        ↔ x ∈ all_lines ∧ ∃ channel, channel ∈ expected_names categories
                                     ∧ Re.match_channel channel x = true).
  { intros x. unfold st. rewrite classify_matched, elem_of_list_to_set.
    apply elem_of_category_lines. }
  assert (Ho : others = unmatched categories all_lines).
  { unfold others, st, all_lines. rewrite classify_matched.
    rewrite <- (other_lines_unmatched categories (all_lines_of all_content)).
    by rewrite scan_template_eq. }
  split; [exact Hm|]. split; [|split; [|split]].
  - rewrite Ho. apply classify_layout.
  - intros x Hx Hin. by apply list_elem_of_filter in Hin as [Hn _].
  - intros x. unfold others. rewrite list_elem_of_filter, Hm. split.
    + intros [Hn Hx]. split; [done|]. intros channel Hc.
      destruct (Re.match_channel channel x) eqn:E; [|done].
      destruct Hn. eauto.
    + intros [Hx Hall]. split; [|done].
      intros (_ & channel & Hc & Hmatch). rewrite Hall in Hmatch; done.
  - intros x Hx. unfold others. rewrite occurrences_filter.
    by rewrite decide_True.
Qed.

End CatchAll.

(** The theorem at the specification's scenario: the line of [CNN] is
    matched and is not in the catch-all. *)
Lemma catch_all_by_text_witness :
  let all_lines := all_lines_of news_content in
  let st := classify news_categories news_content in
  lit "CNN,http://a" ∈ matched_lines st
  ∧ (lit "CNN,http://a" ∉ filter (λ line, line ∉ matched_lines st) all_lines).
Proof.
  intros all_lines st.
  destruct (catch_all_by_text news_categories news_content)
    as (Hm & _ & Hn & _).
  assert (H : lit "CNN,http://a" ∈ matched_lines st).
  { apply Hm. split.
    - apply list_elem_of_In. vm_compute. left. reflexivity.
    - exists (lit "CNN"). split; [|reflexivity].
      apply list_elem_of_In. vm_compute. left. reflexivity. }
  split; [exact H|]. exact (Hn _ H).
Defined.

Section Written.

Context {ic : Re.IgnoreCase}.

(** A line of the record set ends with a character that is not
    whitespace, and so does a header. *)
Lemma record_line_end (all_content x : str) :
  x ∈ all_lines_of all_content →
  ∃ body c, x = body ++ [c] ∧ Py.isspace c = false.
Proof.
  intros Hx. destruct (all_lines_elem _ _ Hx) as [Hne _].
  pose proof (stripped_last x (all_lines_stripped _ _ Hx)) as Hl.
  rewrite <- (rev_involutive x) in Hne |- *.
  destruct (rev x) as [|c r]; [done|].
  exists (rev r), c. by split.
Qed.

Lemma header_end (category : str) :
  ∃ body c, category ++ GENRE_MARK = body ++ [c] ∧ Py.isspace c = false.
Proof.
  exists (category ++ lit ",#genre"), 35. split; [|done].
  by rewrite <- app_assoc.
Qed.

Lemma snoc_cases {A} (l : list A) : l = [] ∨ ∃ l' x, l = l' ++ [x].
Proof.
  induction l as [|x l _] using rev_ind; [by left|].
  right. by exists l, x.
Qed.

Lemma template_blocks_last (categories : Dict.t (list str)) (all_content : str) :
  categories ≠ [] →
  ∃ lines line,
    template_blocks categories (all_lines_of all_content) = lines ++ [line; []]
    ∧ ∃ body c, line = body ++ [c] ∧ Py.isspace c = false.
Proof.
  induction categories as [|item categories IH]; [done|]. intros _.
  rewrite template_blocks_cons. destruct categories as [|item' categories].
  - change (template_blocks [] (all_lines_of all_content)) with (@nil str).
    rewrite app_nil_r. unfold category_block.
    destruct (snoc_cases (category_lines (all_lines_of all_content) (snd item)))
      as [->|(l' & x & Hl)].
    + exists [], (fst item ++ GENRE_MARK). split; [done|]. apply header_end.
    + exists ((fst item ++ GENRE_MARK) :: l'), x. split.
      * rewrite Hl. simpl. by rewrite <- app_assoc.
      * apply (record_line_end all_content).
        assert (Hx : x ∈ category_lines (all_lines_of all_content) (snd item))
          by (rewrite Hl, elem_of_app, list_elem_of_singleton; by right).
        by apply elem_of_category_lines in Hx as [Hx _].
  - destruct IH as (lines & line & -> & Hline); [done|].
    exists (category_block (all_lines_of all_content) item ++ lines), line.
    split; [by rewrite <- app_assoc|done].
Qed.

(** The document ends with a header or a line of the record set, and the
    blank separator after it. *)
Lemma classify_last_line (categories : Dict.t (list str)) (all_content : str) :
  categories ≠ [] →
  ∃ lines line,
    sorted_content (classify categories all_content) = lines ++ [line; []]
    ∧ ∃ body c, line = body ++ [c] ∧ Py.isspace c = false.
Proof.
  intros Hne. rewrite classify_layout.
  destruct (unmatched categories (all_lines_of all_content))
    as [|y others] eqn:E; cbn [catch_all_block].
  - rewrite app_nil_r. by apply template_blocks_last.
  - destruct (snoc_cases (y :: others)) as [|(l' & x & Hl)]; [done|].
    exists (template_blocks categories (all_lines_of all_content)
            ++ (OTHER ++ GENRE_MARK) :: l'), x.
    split.
    + rewrite Hl, <- !app_assoc. reflexivity.
    + apply (record_line_end all_content).
      assert (Hx : x ∈ unmatched categories (all_lines_of all_content))
        by (rewrite E, Hl, elem_of_app, list_elem_of_singleton; by right).
      by apply list_elem_of_filter in Hx as [_ Hx].
Qed.

Lemma join_snoc (sep : str) (l : list str) (x : str) :
  ∃ before, Py.join sep (l ++ [x]) = before ++ x.
Proof.
  induction l as [|y l [before IH]].
  - by exists [].
  - exists (y ++ sep ++ before).
    change ((y :: l) ++ [x]) with (y :: (l ++ [x])).
    destruct (l ++ [x]) as [|z l'] eqn:E; [by destruct l|].
    change (Py.join sep (y :: z :: l')) with (y ++ sep ++ Py.join sep (z :: l')).
    rewrite IH. by rewrite <- !app_assoc.
Qed.

(** C7, as amended.  The text that is written is the emitted lines joined
    with newlines and nothing is trimmed from it: the last emitted line is
    the blank separator of the last category, and the line before it is a
    header or a line of the record set, which ends with a character that is
    not whitespace; so the text ends with exactly one newline after the
    last header or channel line. *)
Theorem written_text_ends_with_newline (w : world) (path text : str) :
  (path, text) ∈ writes (main w) →
  let categories := load_categories_from_template (template_file w) in
  let all_content :=
    aggregate (fetch_m3u_content (mapping_file w) <$> responses w) in
  ∃ lines,
    lines ≠ []
    ∧ sorted_content (classify categories all_content) = lines ++ [[]]
    ∧ text = Py.join NL (lines ++ [[]])
    ∧ text = Py.join NL lines ++ NL
    ∧ last text = Some 10
    ∧ ∃ body c, Py.join NL lines = body ++ [c] ∧ Py.isspace c = false
                ∧ text = body ++ [c; 10].
Proof.
  intros Hw. cbv zeta.
  destruct (main_cases w)
    as [(_ & H & _)|[(_ & _ & H & _)|[(_ & Hne & _ & H)|(_ & _ & _ & H & _)]]];
    rewrite H in Hw.
  - by apply elem_of_nil in Hw.
  - by apply elem_of_nil in Hw.
  - apply list_elem_of_singleton in Hw. injection Hw as -> ->.
    destruct (classify_last_line _
                (aggregate (fetch_m3u_content (mapping_file w) <$> responses w))
                Hne) as (lines & line & Hs & body & c & -> & Hc).
    exists (lines ++ [body ++ [c]]).
    assert (Hl : lines ++ [body ++ [c]] ≠ []) by by destruct lines.
    rewrite Hs.
    change (lines ++ [body ++ [c]; []]) with (lines ++ [body ++ [c]] ++ [[]]).
    rewrite app_assoc, join_blank_last by done.
    repeat split; try done; [apply last_snoc|].
    destruct (join_snoc NL lines (body ++ [c])) as [before ->].
    exists (before ++ body), c. rewrite <- !app_assoc. by repeat split.
  - by apply elem_of_nil in Hw.
Qed.

End Written.

(** The theorem at the run of the specification's scenario: the template
    [News] expecting [CNN], and a playlist with [CNN] and [BBC]. *)
Lemma written_text_ends_with_newline_witness :
  let text :=
    lit "News,#genre#" ++ NL ++ lit "CNN,http://a" ++ NL ++ NL
    ++ OTHER ++ lit ",#genre#" ++ NL ++ lit "BBC,http://b" ++ NL in
  (OUTPUT_PATH, text) ∈ writes (main news_world)
  ∧ last text = Some 10
  ∧ ∃ body c, text = body ++ [c; 10] ∧ Py.isspace c = false.
Proof.
  intros text.
  assert (H : (OUTPUT_PATH, text) ∈ writes (main news_world))
    by (apply list_elem_of_In; vm_compute; left; reflexivity).
  split; [exact H|].
  destruct (written_text_ends_with_newline news_world OUTPUT_PATH text H)
    as (_ & _ & _ & _ & _ & Hlast & body & c & _ & Hc & Ht).
  split; [exact Hlast|]. exists body, c. split; [exact Ht|exact Hc].
Defined.

(** C7 as stated fails: on the specification's scenario the text that is
    written ends with the newline that joins the last line to the blank
    separator, whatever the case tables are. *)
Lemma written_text_not_trimmed :
  let text :=
    lit "News,#genre#" ++ NL ++ lit "CNN,http://a" ++ NL ++ NL
    ++ OTHER ++ lit ",#genre#" ++ NL ++ lit "BBC,http://b" ++ NL in
  last text = Some 10
  ∧ Py.strip text ≠ text
  ∧ ∀ ic : Re.IgnoreCase,
      main news_world
      = [EvPrint (MsgSources 1);
         EvWrite (lit "TV/live.txt") text;
         EvPrint (MsgSaved (lit "TV/live.txt"));
         EvPrint (MsgStats 1 1)]
      ∧ (lit "TV/live.txt", text) ∈ writes (main news_world).
Proof.
  cbv zeta. split; [by vm_compute|]. split; [by vm_compute|]. intros ic.
  rewrite main_ascii by (by vm_compute). split; [by vm_compute|].
  apply list_elem_of_In. vm_compute. left. reflexivity.
Qed.

Section Runs.

Context {ic : Re.IgnoreCase}.

(** C8, as amended.  When every source gave an empty content, or the
    template has no category, the run neither writes nor tries to write the
    output file and ends on the message that says so.  Any other run tries
    to write the document once, to the output path: when the file system
    accepts the write the document is written, once; when it refuses, the
    run ends on the message of the failure and nothing is written. *)
Theorem main_writes_once (w : world) :
  let contents := fetch_m3u_content (mapping_file w) <$> responses w in
  let categories := load_categories_from_template (template_file w) in
  (Forall (λ content, content = []) contents ∨ categories = [] →
     writes (main w) = []
     ∧ (EvWriteFailed OUTPUT_PATH ∉ main w)
     ∧ ∃ m, last (main w) = Some (EvPrint m)
            ∧ (m = MsgNoContent ∨ m = MsgNoCategories))
  ∧ (¬ (Forall (λ content, content = []) contents ∨ categories = []) →
     (write_ok w = true →
        writes (main w)
        = [(OUTPUT_PATH,
            Py.join NL (sorted_content (classify categories (aggregate contents))))])
     ∧ (write_ok w = false →
        writes (main w) = []
        ∧ EvWriteFailed OUTPUT_PATH ∈ main w
        ∧ last (main w) = Some (EvPrint MsgSaveFailed))).
Proof.
  intros contents categories.
  destruct (main_cases w)
    as [(Ha & H & Hf & Hl)|[(Ha & Hc & H & Hf & Hl)
        |[(Ha & Hc & Hok & H)|(Ha & Hc & Hok & H & Hf & Hl)]]];
    fold contents in Ha; try fold categories in Hc.
  - split; [eauto 6|]. intros Hn. destruct Hn. left. by apply aggregate_nil.
  - split; [eauto 6|]. intros Hn. destruct Hn. by right.
  - split.
    + intros [Hall|Hn]; [|done]. by apply aggregate_nil in Hall.
    + intros _. split; [done|]. intros Hno. congruence.
  - split.
    + intros [Hall|Hn]; [|done]. by apply aggregate_nil in Hall.
    + intros _. split; [|done]. intros Hyes. congruence.
Qed.

End Runs.

(** The theorem at a run whose only source cannot be fetched, at the run
    of the specification's scenario, and at the same run when the output
    file cannot be written. *)
Lemma main_writes_once_witness :
  writes (main offline_world) = []
  ∧ (∃ text, writes (main news_world) = [(OUTPUT_PATH, text)])
  ∧ writes (main readonly_world) = [].
Proof.
  assert (Hnews : ∀ w, responses w = [Some news_playlist] →
            mapping_file w = ∅ →
            template_file w = Some [lit "News,#genre#"; lit "CNN"] →
            ¬ (Forall (λ content, content = [])
                      (fetch_m3u_content (mapping_file w) <$> responses w)
               ∨ load_categories_from_template (template_file w) = [])).
  { intros w -> -> -> [H|H].
    - apply Forall_cons in H as [H _]. vm_compute in H. discriminate H.
    - vm_compute in H. discriminate H. }
  split; [|split].
  - apply (proj1 (main_writes_once offline_world)).
    left. repeat constructor.
  - eexists.
    apply (proj1 (proj2 (main_writes_once news_world)
                   (Hnews news_world eq_refl eq_refl eq_refl))).
    reflexivity.
  - apply (proj2 (proj2 (main_writes_once readonly_world)
                   (Hnews readonly_world eq_refl eq_refl eq_refl))).
    reflexivity.
Defined.

(** C8 as stated fails: the run of the specification's scenario, when the
    output file cannot be written, has content and a category and writes
    nothing: it ends on the message of the failure. *)
Lemma main_write_refused :
  let contents :=
    fetch_m3u_content (mapping_file readonly_world) <$> responses readonly_world in
  let categories := load_categories_from_template (template_file readonly_world) in
  contents
  = [UNGROUPED ++ lit ",#genre#" ++ NL ++ lit "CNN,http://a" ++ NL
     ++ lit "BBC,http://b"]
  ∧ categories = [(lit "News", [lit "CNN"])]
  ∧ ∀ ic : Re.IgnoreCase,
      main readonly_world
      = [EvPrint (MsgSources 1); EvWriteFailed (lit "TV/live.txt");
         EvPrint MsgSaveFailed]
      ∧ writes (main readonly_world) = [].
Proof.
  cbv zeta. split; [by vm_compute|]. split; [by vm_compute|]. intros ic.
  rewrite main_ascii by (by vm_compute). by vm_compute.
Qed.

(** ** The pattern of the classifier *)

Section Pattern.

Context {ic : Re.IgnoreCase}.

Lemma ci_equal_Forall2 (a b : str) :
  ci_equal a b = true ↔ Forall2 (λ c d, Re.ci_char d c = true) a b.
Proof.
  revert b. induction a as [|c a IH]; intros [|d b]; simpl.
  - split; [constructor|done].
  - split; [done|inversion 1].
  - split; [done|inversion 1].
  - rewrite andb_true_iff, IH. split.
    + intros [? ?]. by constructor.
    + by intros [? ?]%Forall2_cons.
Qed.

Lemma ci_equal_length (a b : str) :
  ci_equal a b = true → length a = length b.
Proof. intros H%ci_equal_Forall2. by apply Forall2_length in H. Qed.

Lemma ws_star_spec (k : str → bool) (s : str) :
  Re.ws_star k s = true
  ↔ ∃ a b, s = a ++ b ∧ Forall (λ c, Py.isspace c = true) a ∧ k b = true.
Proof.
  induction s as [|c s IH]; simpl.
  - split.
    + intros H. by exists [], [].
    + intros (a & b & Hs & _ & Hk). symmetry in Hs.
      apply app_eq_nil in Hs as [_ ->]. done.
  - rewrite orb_true_iff, andb_true_iff, IH. split.
    + intros [(Hc & a & b & -> & Ha & Hk)|Hk].
      * exists (c :: a), b. repeat split; [|done]. by constructor.
      * exists [], (c :: s). by repeat split.
    + intros (a & b & Hs & Ha & Hk). destruct a as [|c' a].
      * right. simpl in Hs. by subst b.
      * left. injection Hs as -> ->. apply Forall_cons in Ha as [Hc Ha].
        split; [done|]. by exists a, b.
Qed.

Lemma literal_ci_spec (p : str) (k : str → bool) (s : str) :
  Re.literal_ci p k s = true
  ↔ ∃ a b, s = a ++ b ∧ ci_equal a p = true ∧ k b = true.
Proof.
  revert s. induction p as [|d p IH]; intros s; simpl.
  - split.
    + intros Hk. by exists [], s.
    + intros (a & b & -> & Ha & Hk). by destruct a.
  - destruct s as [|c s].
    + split; [done|]. intros (a & b & Hs & Ha & _). symmetry in Hs.
      apply app_eq_nil in Hs as [-> _]. done.
    + rewrite andb_true_iff, IH. split.
      * intros (Hc & a & b & -> & Ha & Hk). exists (c :: a), b.
        repeat split; [|done]. simpl. by rewrite Hc, Ha.
      * intros (a & b & Hs & Ha & Hk). destruct a as [|c' a]; [done|].
        injection Hs as -> ->. simpl in Ha.
        apply andb_true_iff in Ha as [Hc Ha].
        split; [done|]. by exists a, b.
Qed.

(** What the pattern accepts: whitespace, the channel name up to case,
    whitespace, a comma. *)
Lemma match_channel_spec (channel line : str) :
  Re.match_channel channel line = true
  ↔ ∃ w1 name w2 rest,
      line = w1 ++ name ++ w2 ++ 44 :: rest
      ∧ Forall (λ c, Py.isspace c = true) w1
      ∧ ci_equal name channel = true
      ∧ Forall (λ c, Py.isspace c = true) w2.
Proof.
  unfold Re.match_channel. rewrite ws_star_spec. split.
  - intros (w1 & b & -> & Hw1 & H).
    apply literal_ci_spec in H as (name & b' & -> & Hn & H).
    apply ws_star_spec in H as (w2 & b'' & -> & Hw2 & H).
    destruct b'' as [|c rest]; [done|]. simpl in H. apply N.eqb_eq in H as ->.
    by exists w1, name, w2, rest.
  - intros (w1 & name & w2 & rest & -> & Hw1 & Hn & Hw2).
    exists w1, (name ++ w2 ++ 44 :: rest). repeat split; [done|].
    apply literal_ci_spec. exists name, (w2 ++ 44 :: rest).
    repeat split; [done|]. apply ws_star_spec. by exists w2, (44 :: rest).
Qed.

Lemma name_field_spec (line name : str) :
  name_field line = Some name ↔ ∃ rest, line = name ++ 44 :: rest ∧ 44 ∉ name.
Proof.
  revert name. induction line as [|c s IH]; intros name; simpl.
  - split; [done|]. intros (rest & H & _). by destruct name.
  - destruct (c =? 44) eqn:E.
    + apply N.eqb_eq in E as ->. split.
      * intros [= <-]. exists s. split; [done|]. apply not_elem_of_nil.
      * intros (rest & H & Hn). destruct name as [|d name]; [done|].
        injection H as <- _. destruct Hn. left.
    + apply N.eqb_neq in E. rewrite fmap_Some. split.
      * intros (n & Hn & ->). apply IH in Hn as (rest & -> & Hn).
        exists rest. split; [done|]. rewrite not_elem_of_cons. done.
      * intros (rest & H & Hn).
        destruct name as [|d name]; [simpl in H; congruence|].
        injection H as <- ->. exists name. split; [|done].
        apply IH. exists rest. split; [done|].
        by apply not_elem_of_cons in Hn as [_ Hn].
Qed.

(** ** Comparing texts up to case *)

Lemma Forall2_rev {A B} (P : A → B → Prop) (l : list A) (k : list B) :
  Forall2 P l k → Forall2 P (rev l) (rev k).
Proof.
  induction 1 as [|x y l k Hxy _ IH]; simpl; [constructor|].
  apply Forall2_app; [done|]. by repeat constructor.
Qed.

Lemma ci_equal_space (c d : char) :
  Re.ci_char d c = true → Py.isspace c = Py.isspace d.
Proof. apply Re.ci_char_space. Qed.

Lemma ci_equal_stripped (name channel : str) :
  ci_equal name channel = true → Py.strip channel = channel →
  Py.strip name = name.
Proof.
  intros H%ci_equal_Forall2 Hs. apply stripped_ends.
  - pose proof (stripped_head _ Hs) as Hh.
    destruct H as [|c d ? ? Hcd _]; [done|].
    by rewrite (ci_equal_space c d).
  - pose proof (stripped_last _ Hs) as Hl. apply Forall2_rev in H.
    destruct H as [|c d ? ? Hcd _]; [done|].
    by rewrite (ci_equal_space c d).
Qed.

Lemma ci_equal_no_comma (name channel : str) :
  ci_equal name channel = true → 44 ∉ channel → 44 ∉ name.
Proof.
  intros H%ci_equal_Forall2. induction H as [|c d ? ? Hcd _ IH]; [done|].
  rewrite !not_elem_of_cons. intros [Hd Hn]. split; [|by apply IH].
  intros <-. apply Re.ci_char_comma in Hcd. simpl in Hcd.
  symmetry in Hcd. by apply N.eqb_eq in Hcd.
Qed.

Lemma space_no_comma (w : str) :
  Forall (λ c, Py.isspace c = true) w → 44 ∉ w.
Proof.
  induction 1 as [|c w Hc _ IH]; [apply not_elem_of_nil|].
  rewrite not_elem_of_cons. split; [|done]. by intros <-.
Qed.

(** ** The template loader *)

Lemma set_nil_stripped (P : str → Prop) (k : str) (d : Dict.t (list str)) :
  Forall (λ item, Forall P (snd item)) d →
  Forall (λ item, Forall P (snd item)) (Dict.set k [] d).
Proof.
  induction 1 as [|[k' l] d Hl Hd IH]; simpl.
  - by repeat constructor.
  - destruct (decide (k' = k)); constructor; simpl; done.
Qed.

Lemma append_to_stripped (P : str → Prop) (k x : str) (d : Dict.t (list str)) :
  P x →
  Forall (λ item, Forall P (snd item)) d →
  Forall (λ item, Forall P (snd item)) (Dict.append_to k x d).
Proof.
  intros Hx. induction 1 as [|[k' l] d Hl Hd IH]; simpl; [done|].
  destruct (decide (k' = k)); constructor; simpl; try done.
  apply Forall_app. split; [done|]. by repeat constructor.
Qed.

Lemma template_line_stripped (st : template_state) (raw : str) :
  Forall (λ item, Forall (λ channel, Py.strip channel = channel ∧ channel ≠ [])
                         (snd item)) (categories_of st) →
  Forall (λ item, Forall (λ channel, Py.strip channel = channel ∧ channel ≠ [])
                         (snd item)) (categories_of (template_line st raw)).
Proof.
  intros Hst. unfold template_line.
  case_bool_decide; [done|].
  destruct (Py.contains GENRE_MARK (Py.strip raw)); simpl.
  - by apply set_nil_stripped.
  - destruct (current_category st) as [category|]; [|done].
    case_bool_decide; [done|]. case_bool_decide as Hne; [done|]. simpl.
    apply append_to_stripped; [|done]. split; [apply strip_idem|done].
Qed.

Lemma template_lines_stripped (ls : list str) (st : template_state) :
  Forall (λ item, Forall (λ channel, Py.strip channel = channel ∧ channel ≠ [])
                         (snd item)) (categories_of st) →
  Forall (λ item, Forall (λ channel, Py.strip channel = channel ∧ channel ≠ [])
                         (snd item))
         (categories_of (foldl template_line st ls)).
Proof.
  revert st. induction ls as [|raw ls IH]; intros st Hst; simpl; [done|].
  apply IH. by apply template_line_stripped.
Qed.

(** Every expected name of a loaded template is stripped and not empty. *)
Lemma load_categories_stripped (file : option (list str)) (channel : str) :
  channel ∈ expected_names (load_categories_from_template file) →
  Py.strip channel = channel ∧ channel ≠ [].
Proof.
  assert (H : Forall (λ item, Forall (λ channel, Py.strip channel = channel
                                                  ∧ channel ≠ []) (snd item))
                     (load_categories_from_template file)).
  { destruct file as [lines|]; simpl; [|done].
    by apply template_lines_stripped. }
  unfold expected_names. intros Hin%list_elem_of_In.
  apply in_concat in Hin as (l & Hl & Hin).
  apply list_elem_of_In, list_elem_of_fmap in Hl as ([k l'] & -> & Hitem).
  rewrite Forall_forall in H. specialize (H _ Hitem). simpl in *.
  rewrite Forall_forall in H. by apply H, list_elem_of_In.
Qed.

(** C2, as amended.  The expected names of a loaded template have no
    whitespace around them.  For such an expected name that has no comma, a
    line is matched exactly when it has a comma and the text before its
    first comma, stripped, equals the expected name up to the case of the
    letters, character by character as [re.IGNORECASE] compares them; so a
    line named [CCTV10] is not matched by [CCTV1], nor a line named [CCTV1]
    by [CCTV10].  This holds for every comparison of characters, and so
    for the case tables of the interpreter. *)
Theorem match_channel_whole_field :
  (∀ (file : option (list (list N))) (channel : list N),
     channel ∈ expected_names (load_categories_from_template file) →
     Py.strip channel = channel)
  ∧ (∀ channel line : list N,
     44 ∉ channel → Py.strip channel = channel →
     Re.match_channel channel line = true
     ↔ ∃ name, name_field line = Some name
               ∧ ci_equal (Py.strip name) channel = true)
  ∧ (∀ line name : list N,
       name_field line = Some name → Py.strip name = lit "CCTV10" →
       Re.match_channel (lit "CCTV1") line = false)
  ∧ (∀ line name : list N,
       name_field line = Some name → Py.strip name = lit "CCTV1" →
       Re.match_channel (lit "CCTV10") line = false).
Proof.
  assert (Hiff : ∀ channel line : list N,
     44 ∉ channel → Py.strip channel = channel →
     Re.match_channel channel line = true
     ↔ ∃ name, name_field line = Some name
               ∧ ci_equal (Py.strip name) channel = true).
  { intros channel line Hcomma Hstripped. rewrite match_channel_spec. split.
    - intros (w1 & name & w2 & rest & -> & Hw1 & Hn & Hw2).
      exists (w1 ++ name ++ w2). split.
      + apply name_field_spec. exists rest. split; [by rewrite <- !app_assoc|].
        rewrite !not_elem_of_app. repeat split.
        * by apply space_no_comma.
        * by apply (ci_equal_no_comma name channel).
        * by apply space_no_comma.
      + rewrite strip_around; [done..|].
        by apply (ci_equal_stripped name channel).
    - intros (name & (rest & -> & _)%name_field_spec & Hn).
      destruct (strip_spec name) as (a & b & Hname & Ha & Hb).
      exists a, (Py.strip name), b, rest. repeat split; [|done..].
      rewrite Hname at 1. by rewrite <- !app_assoc. }
  split; [|split; [exact Hiff|split]].
  - intros file channel Hin. by apply (load_categories_stripped file).
  - intros line name Hf Hs.
    apply not_true_iff_false. intros Hm.
    apply Hiff in Hm as (name' & Hf' & Hc); [| |done].
    + rewrite Hf in Hf'. injection Hf' as <-. rewrite Hs in Hc.
      apply ci_equal_length in Hc. discriminate Hc.
    + intros Hin%list_elem_of_In. vm_compute in Hin. intuition discriminate.
  - intros line name Hf Hs.
    apply not_true_iff_false. intros Hm.
    apply Hiff in Hm as (name' & Hf' & Hc); [| |done].
    + rewrite Hf in Hf'. injection Hf' as <-. rewrite Hs in Hc.
      apply ci_equal_length in Hc. discriminate Hc.
    + intros Hin%list_elem_of_In. vm_compute in Hin. intuition discriminate.
Qed.

End Pattern.

(** The theorem at the expected name [CCTV1] and a line that spells it in
    lower case, with a space before the comma. *)
Lemma match_channel_whole_field_witness :
  (44 ∉ lit "CCTV1") ∧ Py.strip (lit "CCTV1") = lit "CCTV1"
  ∧ name_field (lit "cctv1 ,http://a") = Some (lit "cctv1 ")
  ∧ ci_equal (Py.strip (lit "cctv1 ")) (lit "CCTV1") = true
  ∧ Re.match_channel (lit "CCTV1") (lit "cctv1 ,http://a") = true.
Proof.
  assert (H1 : 44 ∉ lit "CCTV1").
  { intros Hin%list_elem_of_In. vm_compute in Hin. intuition discriminate. }
  assert (H2 : Py.strip (lit "CCTV1") = lit "CCTV1") by reflexivity.
  assert (H3 : name_field (lit "cctv1 ,http://a") = Some (lit "cctv1 "))
    by reflexivity.
  assert (H4 : ci_equal (Py.strip (lit "cctv1 ")) (lit "CCTV1") = true)
    by reflexivity.
  split; [exact H1|]. split; [exact H2|]. split; [exact H3|].
  split; [exact H4|].
  apply (proj1 (proj2 match_channel_whole_field)
           (lit "CCTV1") (lit "cctv1 ,http://a") H1 H2).
  exists (lit "cctv1 "). split; [exact H3|exact H4].
Defined.

(** C2 as stated fails for an expected name with a comma: the template
    expects [Sky News, HD], the playlist names a channel so, and its line is
    matched although the text before its first comma is [Sky News],
    whatever the case tables are. *)
Lemma match_channel_name_with_comma :
  let categories := load_categories_from_template (Some sky_template) in
  let content := parse_m3u_to_txt ∅ sky_playlist in
  categories = [(lit "UK", [lit "Sky News, HD"])]
  ∧ all_lines_of content = [sky_line]
  ∧ name_field sky_line = Some (lit "Sky News")
  ∧ ∀ ic : Re.IgnoreCase,
      Re.match_channel (lit "Sky News, HD") sky_line = true
      ∧ ci_equal (Py.strip (lit "Sky News")) (lit "Sky News, HD") = false
      ∧ sorted_content (classify categories content)
        = [lit "UK,#genre#"; sky_line; []].
Proof.
  cbv zeta. split; [by vm_compute|]. split; [by vm_compute|].
  split; [by vm_compute|]. intros ic. split; [|split].
  - rewrite match_channel_ascii by (by vm_compute). by vm_compute.
  - apply not_true_iff_false. intros H%ci_equal_length.
    vm_compute in H. discriminate H.
  - rewrite classify_ascii by (by vm_compute). by vm_compute.
Qed.

(** ** Dictionaries *)

Section DictFacts.

Context {V : Type}.

Lemma get_set_eq (k : str) (v : V) (d : Dict.t V) :
  Dict.get k (Dict.set k v d) = Some v.
Proof.
  induction d as [|[k' v'] d IH]; simpl.
  - by rewrite decide_True.
  - destruct (decide (k' = k)); simpl.
    + by rewrite decide_True.
    + by rewrite decide_False.
Qed.

Lemma get_set_ne (g k : str) (v : V) (d : Dict.t V) :
  g ≠ k → Dict.get g (Dict.set k v d) = Dict.get g d.
Proof.
  intros Hne. induction d as [|[k' v'] d IH]; simpl.
  - by rewrite decide_False.
  - destruct (decide (k' = k)) as [->|]; simpl.
    + by rewrite !decide_False.
    + by rewrite IH.
Qed.

Lemma mem_get (k : str) (d : Dict.t V) :
  Dict.mem k d = false ↔ Dict.get k d = None.
Proof.
  unfold Dict.mem. rewrite bool_decide_eq_false.
  induction d as [|[k' v'] d IH]; simpl.
  - split; [done|]. intros _. apply not_elem_of_nil.
  - rewrite not_elem_of_cons. destruct (decide (k' = k)) as [->|Hne].
    + split; [by intros [? _]|done].
    + rewrite IH. split; [by intros [_ ?]|]. intros H. split; [congruence|done].
Qed.

End DictFacts.

Section DictOfLists.

Context {V : Type}.

Lemma get_append_to_eq (k : str) (x : V) (d : Dict.t (list V)) :
  Dict.get k (Dict.append_to k x d) = (λ l, l ++ [x]) <$> Dict.get k d.
Proof.
  induction d as [|[k' l] d IH]; simpl; [done|].
  destruct (decide (k' = k)); simpl.
  - by rewrite decide_True.
  - by rewrite decide_False.
Qed.

Lemma get_append_to_ne (g k : str) (x : V) (d : Dict.t (list V)) :
  g ≠ k → Dict.get g (Dict.append_to k x d) = Dict.get g d.
Proof.
  intros Hne. induction d as [|[k' l] d IH]; simpl; [done|].
  destruct (decide (k' = k)) as [->|]; simpl.
  - by rewrite !decide_False.
  - by rewrite IH.
Qed.

Lemma length_records_append_to (k : str) (x : V) (d : Dict.t (list V)) :
  is_Some (Dict.get k d) →
  length (concat (snd <$> Dict.append_to k x d))
  = S (length (concat (snd <$> d))).
Proof.
  induction d as [|[k' l] d IH]; cbn [Dict.append_to Dict.get];
    [by intros [? ?]|].
  destruct (decide (k' = k)); intros Hk; rewrite !fmap_cons; cbn [concat snd].
  - rewrite !length_app. simpl. lia.
  - rewrite !length_app, IH by done. lia.
Qed.

Lemma length_records_set_nil (k : str) (d : Dict.t (list V)) :
  Dict.get k d = None →
  length (concat (snd <$> Dict.set k [] d)) = length (concat (snd <$> d)).
Proof.
  induction d as [|[k' l] d IH]; cbn [Dict.set Dict.get]; [done|].
  destruct (decide (k' = k)); [done|]. intros Hk.
  rewrite !fmap_cons. cbn [concat snd]. by rewrite !length_app, IH.
Qed.

(** [if k not in d: d[k] = []] and then [d[k].append(x)]. *)
Lemma add_record (k : str) (x : V) (d : Dict.t (list V)) :
  let d' := Dict.append_to k x (if Dict.mem k d then d else Dict.set k [] d) in
  Dict.get k d' = Some (default [] (Dict.get k d) ++ [x])
  ∧ (∀ g, g ≠ k → Dict.get g d' = Dict.get g d)
  ∧ length (concat (snd <$> d')) = S (length (concat (snd <$> d))).
Proof.
  intros d'. unfold d'. destruct (Dict.mem k d) eqn:E.
  - assert (Hk : is_Some (Dict.get k d)).
    { destruct (Dict.get k d) eqn:Hg; [done|].
      apply mem_get in Hg. congruence. }
    destruct Hk as [l Hl]. repeat split.
    + by rewrite get_append_to_eq, Hl.
    + intros g Hg. by apply get_append_to_ne.
    + apply length_records_append_to. by rewrite Hl.
  - apply mem_get in E. repeat split.
    + by rewrite get_append_to_eq, get_set_eq, E.
    + intros g Hg. by rewrite get_append_to_ne, get_set_ne.
    + rewrite length_records_append_to by by rewrite get_set_eq.
      by rewrite length_records_set_nil.
Qed.

End DictOfLists.

(** ** One round of the parser *)

Lemma entry_url_spec (lines : list str) (i : nat) (url : str) :
  entry_url lines i = Some url
  ↔ ∃ next, lines !! (i + 1)%nat = Some next
            ∧ url = Py.strip next
            ∧ Py.strip next ≠ []
            ∧ Py.startswith (lit "#") (Py.strip next) = false.
Proof.
  unfold entry_url. destruct (lines !! (i + 1)%nat) as [next|].
  - destruct (bool_decide (Py.strip next ≠ [])
              && negb (Py.startswith (lit "#") (Py.strip next))) eqn:E.
    + apply andb_true_iff in E as [Hne%bool_decide_eq_true Hs%negb_true_iff].
      split.
      * intros [= <-]. by exists next.
      * by intros (? & [= <-] & -> & _).
    + split; [done|]. intros (? & [= <-] & _ & Hne & Hs).
      rewrite Hs, andb_true_r in E. by apply bool_decide_eq_false in E.
  - split; [done|]. by intros (? & ? & _).
Qed.

Lemma parse_line_kept (mapping : gmap (list N) (list N)) (lines : list str)
    (st : parser_state) (i : nat) (line url : str) :
  metadata_line lines i = Some line → entry_url lines i = Some url →
  parse_line mapping lines st i
  = {| channels :=
         Dict.append_to (entry_group (current_group st) line)
           (entry_name mapping line ++ lit "," ++ url)
           (if Dict.mem (entry_group (current_group st) line) (channels st)
            then channels st
            else Dict.set (entry_group (current_group st) line) [] (channels st));
       current_group := entry_group (current_group st) line |}.
Proof.
  unfold metadata_line, parse_line. intros Hm Hu.
  destruct (lines !! i) as [raw|]; [|done].
  destruct (Py.startswith EXTINF (Py.strip raw)); [|done].
  injection Hm as <-. by rewrite Hu.
Qed.

Lemma parse_line_dropped (mapping : gmap (list N) (list N)) (lines : list str)
    (st : parser_state) (i : nat) :
  metadata_line lines i = None ∨ entry_url lines i = None →
  parse_line mapping lines st i = st.
Proof.
  unfold metadata_line, parse_line. intros H.
  destruct (lines !! i) as [raw|]; [|done].
  destruct (Py.startswith EXTINF (Py.strip raw)); [|done].
  destruct H as [H|H]; [done|]. by rewrite H.
Qed.

Lemma parser_before_S (mapping : gmap (list N) (list N)) (lines : list str)
    (n : nat) :
  parser_before mapping lines (S n)
  = parse_line mapping lines (parser_before mapping lines n) n.
Proof. unfold parser_before. by rewrite seq_S, foldl_app. Qed.

Lemma carry_over_kept (mapping : gmap (list N) (list N)) (lines : list str)
    (n : nat) :
  current_group (parser_before mapping lines n)
  = default UNGROUPED (last_group_kept lines n).
Proof.
  induction n as [|n IH]; [done|].
  rewrite parser_before_S. simpl. unfold group_kept_at, group_seen_at.
  destruct (metadata_line lines n) as [line|] eqn:Hm.
  - destruct (entry_url lines n) as [url|] eqn:Hu.
    + rewrite (parse_line_kept _ _ _ _ line url) by done. simpl.
      unfold entry_group. rewrite IH.
      by destruct (Re.search_quoted GROUP_TITLE line).
    + rewrite parse_line_dropped by by right. done.
  - rewrite parse_line_dropped by by left.
    by destruct (entry_url lines n).
Qed.

(** ** The attribute patterns and the trailing text *)

Lemma unquoted_run_spec (s : str) :
  s = fst (Re.unquoted_run s) ++ snd (Re.unquoted_run s)
  ∧ 34 ∉ fst (Re.unquoted_run s).
Proof.
  induction s as [|c s [IH1 IH2]]; simpl.
  - split; [done|apply not_elem_of_nil].
  - destruct (c =? 34) eqn:E; simpl.
    + split; [done|apply not_elem_of_nil].
    + destruct (Re.unquoted_run s) as [v rest]; simpl in *.
      split; [congruence|]. apply N.eqb_neq in E.
      rewrite not_elem_of_cons. split; [congruence|done].
Qed.

Lemma unquoted_run_app (v b : str) :
  34 ∉ v → Re.unquoted_run (v ++ 34 :: b) = (v, 34 :: b).
Proof.
  induction v as [|c v IH]; simpl; [done|].
  rewrite not_elem_of_cons. intros [Hc Hv].
  destruct (c =? 34) eqn:E; [apply N.eqb_eq in E; congruence|].
  by rewrite IH.
Qed.

Lemma drop_prefix (p s : str) : drop (length p) (p ++ s) = s.
Proof. by rewrite drop_app_length. Qed.

Lemma quoted_at_spec (prefix s v : str) :
  Re.quoted_at prefix s = Some v ↔ ∃ b, s = prefix ++ v ++ 34 :: b ∧ 34 ∉ v.
Proof.
  unfold Re.quoted_at. split.
  - destruct (Py.startswith prefix s) eqn:E; [|done].
    apply startswith_spec in E as [t ->]. rewrite drop_prefix.
    destruct (unquoted_run_spec t) as [Ht Hv].
    destruct (Re.unquoted_run t) as [v' rest]; simpl in *.
    destruct rest as [|c rest]; [done|].
    destruct (c =? 34) eqn:Hc; [|done]. apply N.eqb_eq in Hc as ->.
    intros [= <-]. exists rest. by rewrite Ht.
  - intros (b & -> & Hv).
    assert (Py.startswith prefix (prefix ++ v ++ 34 :: b) = true) as ->
      by (apply startswith_spec; eauto).
    by rewrite drop_prefix, unquoted_run_app.
Qed.

(** [re.search] finds the leftmost place where the pattern matches, and
    finds none only when there is none. *)
Lemma search_quoted_Some (prefix s v : str) :
  Re.search_quoted prefix s = Some v →
  ∃ a b, s = a ++ prefix ++ v ++ 34 :: b ∧ (34 ∉ v)
         ∧ ∀ a' v' b', s = a' ++ prefix ++ v' ++ 34 :: b' → 34 ∉ v' →
                       (length a ≤ length a')%nat.
Proof.
  induction s as [|c s IH]; simpl.
  - destruct (Re.quoted_at prefix []) as [v0|] eqn:E; [|done].
    intros [= ->]. apply quoted_at_spec in E as (b & Hs & Hv).
    exists [], b. repeat split; [done..|]. intros; simpl; lia.
  - destruct (Re.quoted_at prefix (c :: s)) as [v0|] eqn:E.
    + intros [= ->]. apply quoted_at_spec in E as (b & Hs & Hv).
      exists [], b. repeat split; [done..|]. intros; simpl; lia.
    + intros (a & b & -> & Hv & Hmin)%IH. exists (c :: a), b.
      repeat split; [done|]. intros a' v' b' Hs Hv'.
      destruct a' as [|c' a'].
      * assert (Re.quoted_at prefix (c :: a ++ prefix ++ v ++ 34 :: b) = Some v')
          by (apply quoted_at_spec; eauto).
        congruence.
      * injection Hs as _ Hs. specialize (Hmin a' v' b' Hs Hv'). simpl. lia.
Qed.

Lemma search_quoted_None (prefix s : str) :
  Re.search_quoted prefix s = None →
  ¬ ∃ a v b, s = a ++ prefix ++ v ++ 34 :: b ∧ 34 ∉ v.
Proof.
  induction s as [|c s IH]; simpl.
  - destruct (Re.quoted_at prefix []) as [v0|] eqn:E; [done|]. intros _.
    intros (a & v & b & Hs & Hv). destruct a; [|done].
    assert (Re.quoted_at prefix [] = Some v) by (apply quoted_at_spec; eauto).
    congruence.
  - destruct (Re.quoted_at prefix (c :: s)) as [v0|] eqn:E; [done|].
    intros Hn%IH (a & v & b & Hs & Hv). destruct a as [|c' a].
    + assert (Re.quoted_at prefix (c :: s) = Some v)
        by (apply quoted_at_spec; eauto).
      congruence.
    + injection Hs as _ Hs. apply Hn. eauto.
Qed.

Lemma split_nonempty (sep : char) (s : str) : Py.split sep s ≠ [].
Proof.
  destruct s as [|c s]; simpl; [done|].
  destruct (c =? sep); [done|]. by destruct (Py.split sep s).
Qed.

Lemma split_no_sep (sep : char) (s : str) : sep ∉ s → Py.split sep s = [s].
Proof.
  induction s as [|c s IH]; simpl; [done|].
  rewrite not_elem_of_cons. intros [Hc Hs].
  destruct (c =? sep) eqn:E; [apply N.eqb_eq in E; congruence|].
  by rewrite IH.
Qed.

Lemma split_app (sep : char) (a t : str) :
  Py.split sep (a ++ sep :: t) = Py.split sep a ++ Py.split sep t.
Proof.
  induction a as [|c a IH]; simpl.
  - by rewrite N.eqb_refl.
  - destruct (c =? sep); [by rewrite IH|]. rewrite IH.
    pose proof (split_nonempty sep a) as Hne.
    by destruct (Py.split sep a).
Qed.

Lemma last_field_after_comma (a t : str) :
  44 ∉ t → Py.last_field (Py.split 44 (a ++ 44 :: t)) = t.
Proof.
  intros Ht. rewrite split_app, (split_no_sep 44 t Ht).
  unfold Py.last_field. by rewrite List.last_last.
Qed.

Lemma last_field_no_comma (s : str) :
  44 ∉ s → Py.last_field (Py.split 44 s) = s.
Proof. intros Hs. by rewrite (split_no_sep 44 s Hs). Qed.

(** ** The entries of a playlist *)

(** C4, as amended.  The carry-over group starts as the default group and
    is, at any line, the group title of the last entry before it that was
    kept and has one: a metadata line with a group title whose entry is
    dropped leaves it as it was.  An entry that is kept goes to the group
    of its own group title when it has one and to the carry-over group
    otherwise, and that group is the carry-over from then on. *)
Theorem group_carried_over (mapping : gmap (list N) (list N))
    (lines : list (list N)) (n : nat) :
  let st := parser_before mapping lines n in
  let st' := parser_before mapping lines (S n) in
  let carry := default UNGROUPED (last_group_kept lines n) in
  current_group (parser_before mapping lines 0) = UNGROUPED
  ∧ current_group st = carry
  ∧ (∀ line url,
       metadata_line lines n = Some line → entry_url lines n = Some url →
       let group := default carry (Re.search_quoted GROUP_TITLE line) in
       Dict.get group (channels st')
       = Some (default [] (Dict.get group (channels st))
               ++ [entry_name mapping line ++ lit "," ++ url])
       ∧ current_group st' = group)
  ∧ (metadata_line lines n = None ∨ entry_url lines n = None →
     st' = st).
Proof.
  intros st st' carry.
  assert (Hc : current_group st = carry) by apply carry_over_kept.
  split; [done|]. split; [exact Hc|]. split.
  - intros line url Hm Hu group. unfold st'.
    rewrite parser_before_S, (parse_line_kept _ _ _ _ line url) by done.
    fold st. unfold entry_group. rewrite Hc. fold group. simpl.
    split; [|done].
    exact (proj1 (add_record group (entry_name mapping line ++ lit "," ++ url)
                   (channels st))).
  - intros H. unfold st'. rewrite parser_before_S. by apply parse_line_dropped.
Qed.

(** The theorem at the fourth line of a playlist whose second entry, with
    the group title [B], has no url: the third entry goes to the group [A]
    of the first. *)
Lemma group_carried_over_witness :
  let lines := Py.split 10 dropped_group_playlist in
  metadata_line lines 3 = Some (lit "#EXTINF:-1,ch3")
  ∧ entry_url lines 3 = Some (lit "http://3")
  ∧ Dict.get (lit "A") (channels (parser_before ∅ lines 4))
    = Some [lit "ch1,http://1"; lit "ch3,http://3"].
Proof.
  intros lines.
  assert (Hm : metadata_line lines 3 = Some (lit "#EXTINF:-1,ch3"))
    by (vm_compute; reflexivity).
  assert (Hu : entry_url lines 3 = Some (lit "http://3"))
    by (vm_compute; reflexivity).
  split; [exact Hm|]. split; [exact Hu|].
  destruct (group_carried_over ∅ lines 3) as (_ & _ & H & _).
  destruct (H _ _ Hm Hu) as [Hg _].
  vm_compute in Hg. vm_compute. exact Hg.
Defined.

(** C4 as stated fails: the second metadata line shows the group title [B]
    and its entry is dropped, having no url; the third entry, which has no
    group title, goes to the group [A] of the first entry and not to the
    last group title seen. *)
Lemma group_title_of_dropped_entry :
  let lines := Py.split 10 dropped_group_playlist in
  lines
  = [lit "#EXTINF:-1 group-title=" ++ [34] ++ lit "A" ++ [34] ++ lit ",ch1";
     lit "http://1";
     lit "#EXTINF:-1 group-title=" ++ [34] ++ lit "B" ++ [34] ++ lit ",ch2";
     lit "#EXTINF:-1,ch3";
     lit "http://3"]
  ∧ last_group_seen lines 3 = Some (lit "B")
  ∧ current_group (parser_before ∅ lines 3) = lit "A"
  ∧ channels (parse_lines ∅ lines)
    = [(lit "A", [lit "ch1,http://1"; lit "ch3,http://3"])]
  ∧ parse_m3u_to_txt ∅ dropped_group_playlist
    = lit "A,#genre#" ++ NL ++ lit "ch1,http://1" ++ NL ++ lit "ch3,http://3".
Proof. vm_compute. repeat split; reflexivity. Qed.

(** C5, as amended.  At a metadata line, a record is added exactly when
    there is a next line and that line, stripped, is not empty and does not
    start with [#]; the url of the record is the next line stripped of the
    whitespace around it.  Otherwise nothing changes. *)
Theorem entry_kept_iff (mapping : gmap (list N) (list N))
    (lines : list (list N)) (st : parser_state) (i : nat) (line : list N) :
  metadata_line lines i = Some line →
  let st' := parse_line mapping lines st i in
  let group := entry_group (current_group st) line in
  (∀ next,
     lines !! (i + 1)%nat = Some next →
     Py.strip next ≠ [] → Py.startswith (lit "#") (Py.strip next) = false →
     Dict.get group (channels st')
     = Some (default [] (Dict.get group (channels st))
             ++ [entry_name mapping line ++ lit "," ++ Py.strip next])
     ∧ (∀ g, g ≠ group → Dict.get g (channels st') = Dict.get g (channels st))
     ∧ record_count (channels st') = S (record_count (channels st)))
  ∧ (lines !! (i + 1)%nat = None
     ∨ (∃ next, lines !! (i + 1)%nat = Some next
                ∧ (Py.strip next = []
                   ∨ Py.startswith (lit "#") (Py.strip next) = true)) →
     st' = st).
Proof.
  intros Hm st' group. split.
  - intros next Hnext Hne Hs.
    assert (Hu : entry_url lines i = Some (Py.strip next))
      by (apply entry_url_spec; by exists next).
    unfold st'. rewrite (parse_line_kept _ _ _ _ line _ Hm Hu). simpl.
    fold group. apply add_record.
  - intros H. apply parse_line_dropped. right.
    destruct (entry_url lines i) as [url|] eqn:Hu; [|done].
    apply entry_url_spec in Hu as (next & Hnext & _ & Hne & Hs).
    destruct H as [H|(next' & Hnext' & H)]; [congruence|].
    assert (next' = next) as -> by congruence.
    destruct H; congruence.
Qed.

(** The theorem at a playlist whose url line has spaces around the url. *)
Lemma entry_kept_iff_witness :
  let lines := Py.split 10 padded_playlist in
  let st := parser_before ∅ lines 0 in
  metadata_line lines 0 = Some (lit "#EXTINF:-1,ch")
  ∧ lines !! 1%nat = Some (lit "  http://a  ")
  ∧ Dict.get UNGROUPED (channels (parse_line ∅ lines st 0))
    = Some [lit "ch,http://a"].
Proof.
  intros lines st.
  assert (Hm : metadata_line lines 0 = Some (lit "#EXTINF:-1,ch"))
    by (vm_compute; reflexivity).
  split; [exact Hm|]. split; [vm_compute; reflexivity|].
  destruct (entry_kept_iff ∅ lines st 0 _ Hm) as [H _].
  destruct (H (lit "  http://a  ")) as (Hg & _).
  - vm_compute. reflexivity.
  - vm_compute. discriminate.
  - vm_compute. reflexivity.
  - vm_compute in Hg. vm_compute. exact Hg.
Defined.

(** C5 as stated fails: the url of the record is not the next line as it
    is, it is the next line stripped. *)
Lemma entry_url_is_stripped :
  let lines := Py.split 10 padded_playlist in
  lines = [lit "#EXTINF:-1,ch"; lit "  http://a  "]
  ∧ channels (parse_lines ∅ lines) = [(UNGROUPED, [lit "ch,http://a"])]
  ∧ lit "ch,http://a" ≠ lit "ch," ++ lit "  http://a  ".
Proof. vm_compute. repeat split; [reflexivity..|discriminate]. Qed.

Section Names.

Context {ic : Re.IgnoreCase}.

(** C6.  The name of a record is the value of the first [tvg-name]
    attribute of the metadata line when the line has one, and otherwise the
    stripped text after its last comma; when that name is a key of the
    mapping the record carries the mapped name, and otherwise the name as
    it is.  The parser does this, so the classifier sees mapped names: with
    [CCTV-1] mapped to [CCTV1], the entry named [CCTV-1] is listed under the
    expected name [CCTV1]. *)
Theorem entry_name_mapped :
  (∀ (mapping : gmap (list N) (list N)) (lines : list (list N))
     (st : parser_state) (i : nat) (line url : list N),
     metadata_line lines i = Some line → entry_url lines i = Some url →
     let raw_name :=
       match Re.search_quoted TVG_NAME line with
       | Some v => v
       | None => Py.strip (Py.last_field (Py.split 44 line))
       end in
     let name :=
       match mapping !! raw_name with
       | Some mapped => mapped
       | None => raw_name
       end in
     let group := entry_group (current_group st) line in
     Dict.get group (channels (parse_line mapping lines st i))
     = Some (default [] (Dict.get group (channels st))
             ++ [name ++ lit "," ++ url]))
  ∧ (∀ line v : list N,
       Re.search_quoted TVG_NAME line = Some v →
       ∃ a b, line = a ++ TVG_NAME ++ v ++ 34 :: b ∧ (34 ∉ v)
              ∧ ∀ a' v' b', line = a' ++ TVG_NAME ++ v' ++ 34 :: b' →
                            34 ∉ v' → (length a ≤ length a')%nat)
  ∧ (∀ line : list N,
       Re.search_quoted TVG_NAME line = None →
       ¬ ∃ a v b, line = a ++ TVG_NAME ++ v ++ 34 :: b ∧ 34 ∉ v)
  ∧ (∀ a t : list N,
       44 ∉ t → Py.last_field (Py.split 44 (a ++ 44 :: t)) = t)
  ∧ (∀ line : list N,
       44 ∉ line → Py.last_field (Py.split 44 line) = line)
  ∧ writes (main cctv_world)
    = [(OUTPUT_PATH, lit "CCTV,#genre#" ++ NL ++ lit "CCTV1,http://a" ++ NL)].
Proof.
  split; [|split; [|split; [|split; [|split]]]].
  - intros mapping lines st i line url Hm Hu raw_name name group.
    rewrite (parse_line_kept _ _ _ _ line url Hm Hu). simpl. fold group.
    exact (proj1 (add_record group (name ++ lit "," ++ url) (channels st))).
  - intros line v. apply search_quoted_Some.
  - intros line. apply search_quoted_None.
  - apply last_field_after_comma.
  - apply last_field_no_comma.
  - rewrite main_ascii by (by vm_compute). by vm_compute.
Qed.

End Names.

(** The theorem at the entry of the specification's scenario, named
    [CCTV-1], under the mapping of [CCTV-1] to [CCTV1]. *)
Lemma entry_name_mapped_witness :
  let lines := [lit "#EXTINF:-1,CCTV-1"; lit "http://a"] in
  let st := parser_before cctv_mapping lines 0 in
  metadata_line lines 0 = Some (lit "#EXTINF:-1,CCTV-1")
  ∧ entry_url lines 0 = Some (lit "http://a")
  ∧ Dict.get UNGROUPED (channels (parse_line cctv_mapping lines st 0))
    = Some [lit "CCTV1,http://a"].
Proof.
  intros lines st.
  assert (Hm : metadata_line lines 0 = Some (lit "#EXTINF:-1,CCTV-1"))
    by (vm_compute; reflexivity).
  assert (Hu : entry_url lines 0 = Some (lit "http://a"))
    by (vm_compute; reflexivity).
  split; [exact Hm|]. split; [exact Hu|].
  pose proof (proj1 entry_name_mapped cctv_mapping lines st 0%nat _ _ Hm Hu)
    as H.
  vm_compute in H. vm_compute. exact H.
Defined.

(** * Further properties of the script *)

(** ** load_source_urls *)

Lemma startswith_http_line (line : str) :
  Py.startswith (lit "http") line = true →
  bool_decide (line = []) || Py.startswith (lit "#") line = false.
Proof.
  intros (b & ->)%startswith_spec. reflexivity.
Qed.

Lemma source_lines_fold (lines : list str) (urls : list str) :
  foldl source_line urls lines = urls ++ http_lines lines.
Proof.
  revert urls. induction lines as [|raw lines IH]; intros urls.
  - unfold http_lines. simpl. by rewrite app_nil_r.
  - cbn [foldl]. rewrite IH. unfold http_lines. rewrite fmap_cons, filter_cons.
    unfold source_line.
    destruct (Py.startswith (lit "http") (Py.strip raw)) eqn:E.
    + rewrite (startswith_http_line _ E), decide_True by done.
      by rewrite <- app_assoc.
    + rewrite decide_False by done.
      by destruct (bool_decide (Py.strip raw = [])
                   || Py.startswith (lit "#") (Py.strip raw)).
Qed.

Lemma http_lines_elem (lines : list str) (url : str) :
  url ∈ http_lines lines →
  Py.startswith (lit "http") url = true ∧ Py.strip url = url.
Proof.
  unfold http_lines. rewrite list_elem_of_filter, list_elem_of_fmap.
  intros (Hh & raw & -> & _). split; [done|apply strip_idem].
Qed.

(** X1.  The list of source addresses is never empty, and each of its
    addresses starts with [http] and has no whitespace around it, whatever
    the source file holds and also when it is missing. *)
Theorem load_source_urls_wellformed (file : option (list (list N))) :
  load_source_urls file ≠ []
  ∧ ∀ url, url ∈ load_source_urls file →
           Py.startswith (lit "http") url = true ∧ Py.strip url = url.
Proof.
  assert (Hd : ∀ url, url ∈ [DEFAULT_SOURCE] →
             Py.startswith (lit "http") url = true ∧ Py.strip url = url).
  { intros url ->%list_elem_of_singleton. by vm_compute. }
  destruct file as [lines|]; simpl; [|done].
  rewrite source_lines_fold. simpl.
  destruct (http_lines lines) as [|url urls] eqn:E; [done|].
  split; [done|]. intros u Hu. apply (http_lines_elem lines). by rewrite E.
Qed.

(** X2.  When the source file is missing, or none of its lines starts with
    [http] once stripped, the list is the default address alone; otherwise
    it is the lines that start with [http], stripped, in the order of the
    file, and blank lines, comments and other lines are left out. *)
Theorem load_source_urls_spec :
  load_source_urls None = [DEFAULT_SOURCE]
  ∧ (∀ lines : list (list N),
       http_lines lines = [] → load_source_urls (Some lines) = [DEFAULT_SOURCE])
  ∧ (∀ lines : list (list N),
       http_lines lines ≠ [] → load_source_urls (Some lines) = http_lines lines).
Proof.
  split; [done|]. split; intros lines H; simpl; rewrite source_lines_fold; simpl.
  - by rewrite H.
  - by destruct (http_lines lines).
Qed.

Lemma load_source_urls_spec_witness :
  let lines := [lit "# sources"; []; lit "  http://a/1.m3u "; lit "ftp://b";
                lit "https://c/2.m3u"] in
  http_lines lines ≠ []
  ∧ load_source_urls (Some lines) = [lit "http://a/1.m3u"; lit "https://c/2.m3u"]
  ∧ http_lines [lit "# only a comment"] = []
  ∧ load_source_urls (Some [lit "# only a comment"]) = [DEFAULT_SOURCE].
Proof.
  intros lines.
  assert (H1 : http_lines lines ≠ []) by (vm_compute; discriminate).
  assert (H2 : http_lines [lit "# only a comment"] = []) by reflexivity.
  split; [exact H1|]. split; [|split; [exact H2|]].
  - rewrite (proj2 (proj2 load_source_urls_spec) lines H1). reflexivity.
  - exact (proj1 (proj2 load_source_urls_spec) _ H2).
Defined.

(** ** The address pattern of fetch_m3u_content *)

Lemma non_space_run_spec (s : str) :
  ∃ rest, s = Re.non_space_run s ++ rest
          ∧ Forall (λ c, Py.isspace c = false) (Re.non_space_run s)
          ∧ match rest with c :: _ => Py.isspace c = true | [] => True end.
Proof.
  induction s as [|c s (rest & Hs & Hrun & Hrest)]; simpl.
  - by exists [].
  - destruct (Py.isspace c) eqn:E.
    + by exists (c :: s).
    + exists rest. split; [simpl; congruence|]. split; [by constructor|done].
Qed.

Lemma non_space_run_all (s : str) :
  Forall (λ c, Py.isspace c = false) s → Re.non_space_run s = s.
Proof.
  induction 1 as [|c s Hc _ IH]; simpl; [done|]. by rewrite Hc, IH.
Qed.

Lemma url_with_spec (scheme s u : str) :
  Re.url_with scheme s = Some u →
  ∃ v rest, u = scheme ++ v ∧ s = u ++ rest ∧ v ≠ []
            ∧ Forall (λ c, Py.isspace c = false) v
            ∧ match rest with c :: _ => Py.isspace c = true | [] => True end.
Proof.
  unfold Re.url_with. destruct (Py.startswith scheme s) eqn:E; [|done].
  apply startswith_spec in E as [t ->]. rewrite drop_app_length.
  destruct (non_space_run_spec t) as (rest & Ht & Hrun & Hrest).
  destruct (Re.non_space_run t) as [|c v] eqn:Hv; [done|].
  intros [= <-]. exists (c :: v), rest.
  repeat split; [|done..]. rewrite <- app_assoc. by rewrite <- Ht.
Qed.

Lemma url_at_spec (s u : str) :
  Re.url_at s = Some u →
  ∃ scheme v rest,
    (scheme = lit "http://" ∨ scheme = lit "https://")
    ∧ u = scheme ++ v ∧ s = u ++ rest ∧ v ≠ []
    ∧ Forall (λ c, Py.isspace c = false) v
    ∧ match rest with c :: _ => Py.isspace c = true | [] => True end.
Proof.
  unfold Re.url_at.
  destruct (Re.url_with (lit "https://") s) as [u'|] eqn:E.
  - intros [= ->]. apply url_with_spec in E as (v & rest & H).
    exists (lit "https://"), v, rest. split; [by right|done].
  - intros (v & rest & H)%url_with_spec.
    exists (lit "http://"), v, rest. split; [by left|done].
Qed.

(** X3.  The url that is requested for a source address is a piece of the
    address that starts with [http://] or [https://], has at least one
    character after it, holds no whitespace, and runs up to the end of the
    address or to the next whitespace. *)
Theorem search_url_wellformed (address u : list N) :
  Re.search_url address = Some u →
  ∃ before scheme v rest,
    address = before ++ u ++ rest
    ∧ u = scheme ++ v
    ∧ (scheme = lit "http://" ∨ scheme = lit "https://")
    ∧ v ≠ []
    ∧ Forall (λ c, Py.isspace c = false) u
    ∧ match rest with c :: _ => Py.isspace c = true | [] => True end.
Proof.
  induction address as [|c s IH]; cbn [Re.search_url].
  - destruct (Re.url_at []) as [u'|] eqn:E; [|done].
    apply url_at_spec in E as (scheme & v & rest & Hs & -> & Hnil & _).
    by destruct Hs as [-> | ->].
  - destruct (Re.url_at (c :: s)) as [u'|] eqn:E.
    + intros [= ->].
      apply url_at_spec in E as (scheme & v & rest & Hs & Hu & Ha & Hv & Hns & Hr).
      exists [], scheme, v, rest. repeat split; try done.
      rewrite Hu. apply Forall_app. split; [|done].
      destruct Hs as [-> | ->]; repeat constructor.
    + intros (before & scheme & v & rest & -> & H)%IH.
      by exists (c :: before), scheme, v, rest.
Qed.

Lemma search_url_wellformed_witness :
  Re.search_url (lit "mirror https://c/2.m3u (backup)")
  = Some (lit "https://c/2.m3u")
  ∧ ∃ before rest,
      lit "mirror https://c/2.m3u (backup)"
      = before ++ lit "https://c/2.m3u" ++ rest.
Proof.
  assert (H : Re.search_url (lit "mirror https://c/2.m3u (backup)")
              = Some (lit "https://c/2.m3u")) by reflexivity.
  split; [exact H|].
  destruct (search_url_wellformed _ _ H) as (before & _ & _ & rest & Ha & _).
  by exists before, rest.
Defined.

Lemma url_with_clean (scheme v : str) :
  v ≠ [] → Forall (λ c, Py.isspace c = false) v →
  Re.url_with scheme (scheme ++ v) = Some (scheme ++ v).
Proof.
  intros Hne Hv. unfold Re.url_with.
  assert (Py.startswith scheme (scheme ++ v) = true) as ->
    by (apply startswith_spec; eauto).
  rewrite drop_app_length, non_space_run_all by done.
  by destruct v.
Qed.

Lemma url_at_has_scheme (s u : str) :
  Re.url_at s = Some u → Py.contains (lit "://") s = true.
Proof.
  intros (scheme & v & rest & Hs & -> & -> & _)%url_at_spec.
  apply contains_spec. destruct Hs as [-> | ->].
  - exists (lit "http"), (v ++ rest). by rewrite <- !app_assoc.
  - exists (lit "https"), (v ++ rest). by rewrite <- !app_assoc.
Qed.

Lemma search_url_no_scheme (address : str) :
  Py.contains (lit "://") address = false → Re.search_url address = None.
Proof.
  induction address as [|c s IH]; cbn [Re.search_url]; intros Hc.
  - destruct (Re.url_at []) as [u|] eqn:E; [|done].
    apply url_at_has_scheme in E. congruence.
  - destruct (Re.url_at (c :: s)) as [u|] eqn:E.
    + apply url_at_has_scheme in E. congruence.
    + apply IH. destruct (Py.contains (lit "://") s) eqn:Hs; [|done].
      apply contains_spec in Hs as (a & b & ->).
      assert (Py.contains (lit "://") (c :: a ++ lit "://" ++ b) = true)
        by (apply contains_spec; by exists (c :: a), b).
      congruence.
Qed.

(** X4.  For an address that is [http://] or [https://] followed by at
    least one character, with no whitespace in it, the url requested is the
    address itself and the content is the parsed response; for an address
    in which [://] does not occur, as a line [httpfoo] of the source list,
    no url is found and the content is empty whatever the network holds. *)
Theorem fetch_source_address (net : list N → option (list N))
    (mapping : gmap (list N) (list N)) :
  (∀ scheme v : list N,
     scheme = lit "http://" ∨ scheme = lit "https://" →
     v ≠ [] → Forall (λ c, Py.isspace c = false) v →
     Re.search_url (scheme ++ v) = Some (scheme ++ v)
     ∧ fetch_source net mapping (scheme ++ v)
       = fetch_m3u_content mapping (net (scheme ++ v)))
  ∧ (∀ address : list N,
       Py.contains (lit "://") address = false →
       Re.search_url address = None ∧ fetch_source net mapping address = []).
Proof.
  split.
  - intros scheme v Hs Hne Hv.
    assert (H : Re.search_url (scheme ++ v) = Some (scheme ++ v)).
    { assert (Hat : Re.url_at (scheme ++ v) = Some (scheme ++ v)).
      { unfold Re.url_at. destruct Hs as [-> | ->].
        - rewrite (url_with_clean (lit "http://")) by done.
          by destruct (Re.url_with (lit "https://") (lit "http://" ++ v)) eqn:E.
        - by rewrite (url_with_clean (lit "https://")). }
      destruct (scheme ++ v); cbn [Re.search_url]; by rewrite Hat. }
    split; [exact H|]. unfold fetch_source. by rewrite H.
  - intros address Hc. pose proof (search_url_no_scheme address Hc) as H.
    split; [exact H|]. unfold fetch_source. by rewrite H.
Qed.

Lemma fetch_source_address_witness :
  Re.search_url (lit "https://c/2.m3u") = Some (lit "https://c/2.m3u")
  ∧ Py.contains (lit "://") (lit "httpfoo") = false
  ∧ fetch_source (λ _, Some news_playlist) ∅ (lit "httpfoo") = [].
Proof.
  split; [|split; [reflexivity|]].
  - apply (proj1 (fetch_source_address (λ _, None) ∅)
             (lit "https://") (lit "c/2.m3u")); [by right|done|].
    repeat constructor.
  - by apply (proj2 (fetch_source_address (λ _, Some news_playlist) ∅)).
Defined.

(** ** load_channel_mapping *)

Lemma split_once_spec (line a b : str) :
  split_once line = Some (a, b) ↔ line = a ++ 44 :: b ∧ 44 ∉ a.
Proof.
  revert a. induction line as [|c s IH]; intros a; simpl.
  - split; [done|]. intros [H _]. by destruct a.
  - destruct (c =? 44) eqn:E.
    + apply N.eqb_eq in E as ->. split.
      * intros [= <- <-]. split; [done|apply not_elem_of_nil].
      * intros [H Hn]. destruct a as [|d a]; [by injection H as ->|].
        injection H as <- _. destruct Hn. left.
    + apply N.eqb_neq in E. rewrite fmap_Some. split.
      * intros ([a' b'] & Hs & [= -> ->]). apply IH in Hs as [-> Hn].
        split; [done|]. rewrite not_elem_of_cons. done.
      * intros [H Hn]. destruct a as [|d a]; [simpl in H; congruence|].
        injection H as <- ->. exists (a, b). split; [|done].
        apply IH. split; [done|]. by apply not_elem_of_cons in Hn as [_ Hn].
Qed.

Lemma strip_elem (c : char) (s : str) : c ∈ Py.strip s → c ∈ s.
Proof.
  intros H. destruct (strip_spec s) as (a & b & Hs & _). rewrite Hs.
  rewrite !elem_of_app. auto.
Qed.

Lemma mapping_line_entry (mapping : gmap (list N) (list N)) (raw : str) :
  mapping_line mapping raw
  = match mapping_entry raw with
    | Some p => <[fst p := snd p]> mapping
    | None => mapping
    end.
Proof.
  unfold mapping_line, mapping_entry. case_bool_decide; [done|].
  by destruct (split_once (Py.strip raw)) as [[a b]|].
Qed.

Lemma mapping_lines_fold (lines : list str) (mapping : gmap (list N) (list N)) :
  foldl mapping_line mapping lines
  = foldl (λ m p, <[fst p := snd p]> m) mapping (mapping_entries lines).
Proof.
  revert mapping. induction lines as [|raw lines IH]; intros mapping; [done|].
  cbn [foldl]. rewrite IH, mapping_line_entry. unfold mapping_entries.
  cbn [omap list_omap]. by destruct (mapping_entry raw).
Qed.

Lemma insert_entries_lookup (entries : list (str * str)) (k : str) :
  foldl (λ (m : gmap (list N) (list N)) p, <[fst p := snd p]> m) ∅ entries !! k
  = snd <$> last (filter (λ p, fst p = k) entries).
Proof.
  induction entries as [|p entries IH] using rev_ind; [done|].
  rewrite foldl_app, filter_app. cbn [foldl]. rewrite filter_cons, filter_nil.
  destruct (decide (fst p = k)) as [<-|Hne].
  - by rewrite lookup_insert_eq, last_snoc.
  - by rewrite lookup_insert_ne, app_nil_r.
Qed.

(** X5.  The name mapping looks a name up in the last line of the mapping
    file that has that name, stripped, before its first comma, among the
    lines that are not blank and have a comma; the mapped name is the
    stripped text after that comma.  A missing file gives the empty
    mapping. *)
Theorem load_channel_mapping_last_wins :
  (∀ k : list N, load_channel_mapping None !! k = None)
  ∧ (∀ (lines : list (list N)) (k : list N),
       load_channel_mapping (Some lines) !! k
       = snd <$> last (filter (λ p, fst p = k) (mapping_entries lines))).
Proof.
  split; [done|]. intros lines k. simpl.
  by rewrite mapping_lines_fold, insert_entries_lookup.
Qed.

Lemma mapping_entry_wellformed (raw k v : str) :
  mapping_entry raw = Some (k, v) →
  Py.strip k = k ∧ (44 ∉ k) ∧ Py.strip v = v.
Proof.
  unfold mapping_entry. case_bool_decide; [done|].
  rewrite fmap_Some. intros ([a b] & [_ Hn]%split_once_spec & [= -> ->]).
  repeat split; [apply strip_idem| |apply strip_idem].
  intros Hin. by apply Hn, strip_elem.
Qed.

Lemma mapping_lookup_entry (file : option (list str)) (k v : str) :
  load_channel_mapping file !! k = Some v →
  ∃ raw, mapping_entry raw = Some (k, v).
Proof.
  destruct file as [lines|]; [|done]. simpl.
  rewrite mapping_lines_fold, insert_entries_lookup, fmap_Some.
  intros ([k' v'] & Hl & ->). simpl.
  apply last_Some_elem_of, list_elem_of_filter in Hl as [Hk Hin].
  simpl in Hk. subst k'. unfold mapping_entries in Hin.
  apply list_elem_of_omap in Hin as (raw & _ & He). by exists raw.
Qed.

(** X6.  Every key of the name mapping is stripped and has no comma, and
    every mapped name is stripped. *)
Theorem load_channel_mapping_wellformed (file : option (list (list N)))
    (k v : list N) :
  load_channel_mapping file !! k = Some v →
  Py.strip k = k ∧ (44 ∉ k) ∧ Py.strip v = v.
Proof.
  intros (raw & He)%mapping_lookup_entry.
  destruct (mapping_entry_wellformed raw k v He) as (Hk & Hn & Hv).
  by repeat split.
Qed.

Lemma load_channel_mapping_wellformed_witness :
  let file := Some [lit " CCTV-1 , CCTV1 "; lit "no comma"; lit "CCTV-1,CCTV1 HD"] in
  load_channel_mapping file !! lit "CCTV-1" = Some (lit "CCTV1 HD")
  ∧ Py.strip (lit "CCTV1 HD") = lit "CCTV1 HD".
Proof.
  intros file.
  assert (H : load_channel_mapping file !! lit "CCTV-1" = Some (lit "CCTV1 HD"))
    by (vm_compute; reflexivity).
  split; [exact H|].
  by destruct (load_channel_mapping_wellformed file _ _ H) as (_ & _ & Hv).
Defined.

Lemma split_pieces_no_sep (sep : char) (s : str) :
  Forall (λ piece, sep ∉ piece) (Py.split sep s).
Proof.
  induction s as [|c s IH]; simpl.
  - repeat constructor. apply not_elem_of_nil.
  - destruct (c =? sep) eqn:E.
    + constructor; [apply not_elem_of_nil|done].
    + apply N.eqb_neq in E. destruct (Py.split sep s) as [|w ws].
      * repeat constructor. rewrite not_elem_of_cons.
        split; [congruence|apply not_elem_of_nil].
      * apply Forall_cons in IH as [Hw Hws]. constructor; [|done].
        rewrite not_elem_of_cons. split; [congruence|done].
Qed.

Lemma last_field_no_sep (sep : char) (s : str) :
  sep ∉ Py.last_field (Py.split sep s).
Proof.
  unfold Py.last_field.
  pose proof (split_pieces_no_sep sep s) as Hp.
  pose proof (split_nonempty sep s) as Hne.
  induction Hp as [|w ws Hw Hws IH]; [done|].
  destruct ws as [|w' ws]; [done|]. by apply IH.
Qed.

(** X7.  A name that has a comma in it is never renamed, since no line of
    the mapping file can map it; and only a [tvg-name] attribute gives such
    a name, the text after the last comma having none. *)
Theorem comma_name_not_renamed (file : option (list (list N))) (line : list N) :
  (44 ∈ entry_raw_name line →
   entry_name (load_channel_mapping file) line = entry_raw_name line)
  ∧ (Re.search_quoted TVG_NAME line = None → 44 ∉ entry_raw_name line).
Proof.
  split.
  - intros Hin. unfold entry_name.
    destruct (load_channel_mapping file !! entry_raw_name line) as [v|] eqn:E;
      [|done].
    apply mapping_lookup_entry in E as (raw & He).
    by apply mapping_entry_wellformed in He as (_ & Hn & _).
  - intros Hs Hin. unfold entry_raw_name in Hin. rewrite Hs in Hin.
    simpl in Hin. apply strip_elem in Hin. revert Hin.
    apply last_field_no_sep.
Qed.

Lemma comma_name_not_renamed_witness :
  let line := lit "#EXTINF:-1 tvg-name=" ++ [34] ++ lit "Sky News, HD" ++ [34]
              ++ lit ",Sky" in
  44 ∈ entry_raw_name line
  ∧ entry_name (load_channel_mapping (Some [lit "Sky News, HD,Sky News"])) line
    = lit "Sky News, HD".
Proof.
  intros line.
  assert (H : 44 ∈ entry_raw_name line).
  { apply list_elem_of_In. vm_compute. do 8 right. left. reflexivity. }
  split; [exact H|].
  rewrite (proj1 (comma_name_not_renamed _ line) H). reflexivity.
Defined.

(** ** load_categories_from_template *)

Section DictKeys.

Context {V : Type}.

Lemma keys_set (k : str) (v : V) (d : Dict.t V) :
  (Dict.set k v d).*1 = if decide (k ∈ d.*1) then d.*1 else d.*1 ++ [k].
Proof.
  induction d as [|[k' v'] d IH]; cbn [Dict.set].
  - rewrite decide_False; [done|apply not_elem_of_nil].
  - rewrite !fmap_cons. cbn [fst]. destruct (decide (k' = k)) as [->|Hne].
    + rewrite decide_True; [done|left].
    + rewrite fmap_cons, IH. cbn [fst]. destruct (decide (k ∈ d.*1)).
      * rewrite decide_True; [done|by right].
      * rewrite decide_False; [done|].
        rewrite not_elem_of_cons. split; [congruence|done].
Qed.

Lemma keys_append_to (k : str) (x : V) (d : Dict.t (list V)) :
  (Dict.append_to k x d).*1 = d.*1.
Proof.
  induction d as [|[k' l] d IH]; cbn [Dict.append_to]; [done|].
  destruct (decide (k' = k)); rewrite !fmap_cons; cbn [fst]; [done|].
  by rewrite IH.
Qed.

Lemma get_None_keys (k : str) (d : Dict.t V) :
  Dict.get k d = None ↔ k ∉ d.*1.
Proof. rewrite <- mem_get. unfold Dict.mem. apply bool_decide_eq_false. Qed.

End DictKeys.

Lemma split_hd_no_sep (sep : char) (s : str) : sep ∉ hd [] (Py.split sep s).
Proof.
  induction s as [|c s IH]; simpl; [apply not_elem_of_nil|].
  destruct (c =? sep) eqn:E; [apply not_elem_of_nil|].
  apply N.eqb_neq in E. destruct (Py.split sep s) as [|w ws]; simpl in *.
  - rewrite not_elem_of_cons. split; [congruence|apply not_elem_of_nil].
  - rewrite not_elem_of_cons. split; [congruence|done].
Qed.

Lemma template_line_cases (st : template_state) (raw : str) :
  template_line st raw
  = if bool_decide (Py.strip raw = []) then st
    else if is_header raw then
      {| categories_of := Dict.set (header_category raw) [] (categories_of st);
         current_category := Some (header_category raw) |}
    else match current_category st with
         | Some category =>
             if bool_decide (category = []) then st
             else {| categories_of :=
                       Dict.append_to category (Py.strip raw) (categories_of st);
                     current_category := current_category st |}
         | None => st
         end.
Proof.
  unfold template_line, is_header, header_category.
  case_bool_decide as Hb; [done|].
  destruct (Py.contains GENRE_MARK (Py.strip raw)); [done|].
  destruct (current_category st) as [category|]; [|done].
  rewrite strip_idem. case_bool_decide; [done|].
  by rewrite bool_decide_eq_false_2.
Qed.

Lemma template_line_keys (st : template_state) (raw : str) :
  NoDup (categories_of st).*1
  ∧ Forall (λ k, Py.strip k = k ∧ 44 ∉ k) (categories_of st).*1 →
  NoDup (categories_of (template_line st raw)).*1
  ∧ Forall (λ k, Py.strip k = k ∧ 44 ∉ k)
           (categories_of (template_line st raw)).*1.
Proof.
  intros [Hnd Hk]. rewrite template_line_cases.
  case_bool_decide; [done|]. destruct (is_header raw); simpl.
  - rewrite keys_set. case_decide as Hin; [done|]. split.
    + apply NoDup_app. split; [done|]. split; [|apply NoDup_singleton].
      intros k Hk1 ->%list_elem_of_singleton. done.
    + apply Forall_app. split; [done|]. repeat constructor.
      * apply strip_idem.
      * intros Hc%strip_elem. by apply split_hd_no_sep in Hc.
  - destruct (current_category st) as [category|]; [|done].
    case_bool_decide; [done|]. simpl. by rewrite keys_append_to.
Qed.

Lemma template_lines_keys (lines : list str) (st : template_state) :
  NoDup (categories_of st).*1
  ∧ Forall (λ k, Py.strip k = k ∧ 44 ∉ k) (categories_of st).*1 →
  NoDup (categories_of (foldl template_line st lines)).*1
  ∧ Forall (λ k, Py.strip k = k ∧ 44 ∉ k)
           (categories_of (foldl template_line st lines)).*1.
Proof.
  revert st. induction lines as [|raw lines IH]; intros st Hst; [done|].
  cbn [foldl]. by apply IH, template_line_keys.
Qed.

(** X8.  The categories of a loaded template have pairwise different
    names, and each name is stripped and has no comma: a header that names
    a category again does not add a second category. *)
Theorem load_categories_names (file : option (list (list N))) :
  NoDup (load_categories_from_template file).*1
  ∧ ∀ category, category ∈ (load_categories_from_template file).*1 →
                Py.strip category = category ∧ 44 ∉ category.
Proof.
  assert (H : NoDup (load_categories_from_template file).*1
              ∧ Forall (λ k, Py.strip k = k ∧ 44 ∉ k)
                       (load_categories_from_template file).*1).
  { destruct file as [lines|]; simpl.
    - apply template_lines_keys. simpl. split; [apply NoDup_nil_2|done].
    - split; [apply NoDup_nil_2|done]. }
  destruct H as [Hnd Hk]. split; [done|].
  intros category Hin. rewrite Forall_forall in Hk. by apply Hk.
Qed.

Lemma load_categories_names_witness :
  let file := Some [lit " A ,#genre#"; lit "x"; lit "B,1,#genre#"; lit "A,#genre#"] in
  (load_categories_from_template file).*1 = [lit "A"; lit "B"]
  ∧ Py.strip (lit "B") = lit "B".
Proof.
  intros file.
  assert (H : (load_categories_from_template file).*1 = [lit "A"; lit "B"])
    by (vm_compute; reflexivity).
  split; [exact H|].
  apply (proj2 (load_categories_names file)). rewrite H. right. left.
Defined.

Lemma template_line_names (st : template_state) (raw : str) :
  Forall (λ item, Forall (λ channel, channel ≠ []
                                     ∧ Py.contains GENRE_MARK channel = false)
                         (snd item)) (categories_of st) →
  Forall (λ item, Forall (λ channel, channel ≠ []
                                     ∧ Py.contains GENRE_MARK channel = false)
                         (snd item)) (categories_of (template_line st raw)).
Proof.
  intros Hst. rewrite template_line_cases.
  case_bool_decide as Hb; [done|]. destruct (is_header raw) eqn:Hh; simpl.
  - by apply set_nil_stripped.
  - destruct (current_category st) as [category|]; [|done].
    case_bool_decide; [done|]. simpl.
    apply append_to_stripped; [|done]. split; [done|].
    unfold is_header in Hh. done.
Qed.

(** X9.  An expected name of a loaded template is never empty and never
    contains the header mark [,#genre#]. *)
Theorem load_categories_expected_names (file : option (list (list N)))
    (channel : list N) :
  channel ∈ expected_names (load_categories_from_template file) →
  channel ≠ [] ∧ Py.contains GENRE_MARK channel = false.
Proof.
  assert (H : Forall (λ item, Forall (λ channel, channel ≠ []
                        ∧ Py.contains GENRE_MARK channel = false) (snd item))
                     (load_categories_from_template file)).
  { destruct file as [lines|]; simpl; [|done].
    assert (Hgen : ∀ (ls : list str) st,
      Forall (λ item, Forall (λ channel, channel ≠ []
                ∧ Py.contains GENRE_MARK channel = false) (snd item))
             (categories_of st) →
      Forall (λ item, Forall (λ channel, channel ≠ []
                ∧ Py.contains GENRE_MARK channel = false) (snd item))
             (categories_of (foldl template_line st ls))).
    { induction ls as [|raw ls IH]; intros st Hst; [done|].
      cbn [foldl]. by apply IH, template_line_names. }
    by apply Hgen. }
  unfold expected_names. intros Hin%list_elem_of_In.
  apply in_concat in Hin as (l & Hl & Hin).
  apply list_elem_of_In, list_elem_of_fmap in Hl as ([k l'] & -> & Hitem).
  rewrite Forall_forall in H. specialize (H _ Hitem). simpl in *.
  rewrite Forall_forall in H. by apply H, list_elem_of_In.
Qed.

Lemma load_categories_expected_names_witness :
  let file := Some [lit "A,#genre#"; lit "  CCTV1  "; []; lit "CCTV2"] in
  lit "CCTV1" ∈ expected_names (load_categories_from_template file)
  ∧ lit "CCTV1" ≠ [].
Proof.
  intros file.
  assert (H : lit "CCTV1" ∈ expected_names (load_categories_from_template file))
    by (apply list_elem_of_In; vm_compute; left; reflexivity).
  split; [exact H|].
  exact (proj1 (load_categories_expected_names file _ H)).
Defined.

Lemma is_header_not_blank (raw : str) : is_header raw = true → Py.strip raw ≠ [].
Proof. unfold is_header. intros H He. by rewrite He in H. Qed.

Lemma template_lines_no_header (lines : list str) (st : template_state) :
  Forall (λ raw, is_header raw = false) lines →
  current_category st = None →
  foldl template_line st lines = st.
Proof.
  intros Hl Hc. induction Hl as [|raw lines Hraw _ IH]; [done|].
  cbn [foldl]. rewrite template_line_cases, Hraw, Hc.
  by case_bool_decide.
Qed.

Section NoHeader.

Context {ic : Re.IgnoreCase}.

(** X10.  When the template file is missing or none of its lines is a
    header, whatever else it lists, the template has no category and the
    run writes nothing. *)
Theorem template_without_header (w : world) :
  template_file w = None
  ∨ (∃ lines, template_file w = Some lines
              ∧ Forall (λ raw, is_header raw = false) lines) →
  load_categories_from_template (template_file w) = []
  ∧ writes (main w) = [].
Proof.
  intros H.
  assert (Hc : load_categories_from_template (template_file w) = []).
  { destruct H as [-> | (lines & -> & Hl)]; [done|]. simpl.
    by rewrite template_lines_no_header. }
  split; [exact Hc|].
  by destruct (main_cases w)
    as [(_ & Hw & _)|[(_ & _ & Hw & _)|[(_ & Hne & _)|(_ & Hne & _)]]].
Qed.

End NoHeader.

Lemma template_without_header_witness :
  let w := {| tv_dir_exists := true;
              responses := [Some news_playlist];
              mapping_file := ∅;
              template_file := Some [lit "News"; lit "CNN"];
              write_ok := true |} in
  Forall (λ raw, is_header raw = false) [lit "News"; lit "CNN"]
  ∧ writes (main w) = [].
Proof.
  intros w.
  assert (H : Forall (λ raw, is_header raw = false) [lit "News"; lit "CNN"])
    by (repeat constructor).
  split; [exact H|].
  apply (template_without_header w). right. by exists [lit "News"; lit "CNN"].
Defined.

Lemma names_after_header (rest : list str) (st : template_state)
    (category : str) (l : list str) :
  Forall (λ raw, is_header raw = false) rest →
  current_category st = Some category → category ≠ [] →
  Dict.get category (categories_of st) = Some l →
  Dict.get category (categories_of (foldl template_line st rest))
  = Some (l ++ name_lines rest)
  ∧ ∀ g, g ≠ category →
         Dict.get g (categories_of (foldl template_line st rest))
         = Dict.get g (categories_of st).
Proof.
  intros Hrest. revert st l.
  induction Hrest as [|raw rest Hraw _ IH]; intros st l Hc Hne Hg.
  - unfold name_lines. simpl. by rewrite app_nil_r.
  - cbn [foldl]. rewrite template_line_cases, Hraw, Hc.
    rewrite (bool_decide_eq_false_2 (category = [])) by done.
    unfold name_lines. rewrite fmap_cons, filter_cons.
    case_bool_decide as Hb.
    + rewrite decide_False by (by intros ?).
      by apply IH.
    + rewrite decide_True by done.
      destruct (IH {| categories_of :=
                        Dict.append_to category (Py.strip raw) (categories_of st);
                      current_category := Some category |}
                   (l ++ [Py.strip raw])) as [H1 H2]; [done|done| |].
      * simpl. by rewrite get_append_to_eq, Hg.
      * split.
        -- rewrite H1. unfold name_lines. by rewrite <- app_assoc.
        -- intros g Hgne. rewrite H2 by done. simpl.
           by rewrite get_append_to_ne.
Qed.

Lemma names_after_nameless_header (rest : list str) (st : template_state) :
  Forall (λ raw, is_header raw = false) rest →
  current_category st = Some [] →
  foldl template_line st rest = st.
Proof.
  intros Hrest Hc. induction Hrest as [|raw rest Hraw _ IH]; [done|].
  cbn [foldl]. rewrite template_line_cases, Hraw, Hc.
  by case_bool_decide.
Qed.

(** X11.  The expected names of a category are the lines that follow its
    last header up to the next header, stripped, without the blank ones and
    in the order of the file: a header that names a category again empties
    it.  A header with an empty category name opens a category that stays
    empty, its lines being skipped.  Neither touches the other
    categories. *)
Theorem names_follow_last_header (before rest : list (list N)) (header : list N) :
  is_header header = true →
  Forall (λ raw, is_header raw = false) rest →
  let category := header_category header in
  let loaded := load_categories_from_template (Some (before ++ header :: rest)) in
  Dict.get category loaded
  = Some (if decide (category = []) then [] else name_lines rest)
  ∧ ∀ g, g ≠ category →
         Dict.get g loaded
         = Dict.get g (load_categories_from_template (Some before)).
Proof.
  intros Hh Hrest category loaded. unfold loaded. simpl.
  rewrite foldl_app. cbn [foldl].
  set (st := foldl template_line
               {| categories_of := []; current_category := None |} before).
  rewrite (template_line_cases st header), Hh.
  rewrite bool_decide_eq_false_2 by by apply is_header_not_blank.
  fold category.
  set (st1 := {| categories_of := Dict.set category [] (categories_of st);
                 current_category := Some category |}).
  destruct (decide (category = [])) as [He|Hne].
  - rewrite names_after_nameless_header; [|done|by rewrite <- He].
    simpl. split; [apply get_set_eq|]. intros g Hg. by apply get_set_ne.
  - destruct (names_after_header rest st1 category [] Hrest) as [H1 H2];
      [done|done|apply get_set_eq|].
    split; [exact H1|]. intros g Hg. rewrite H2 by done. by apply get_set_ne.
Qed.

Lemma names_follow_last_header_witness :
  let before := [lit "A,#genre#"; lit "old"; lit "B,#genre#"; lit "b1"] in
  let rest := [lit " a1 "; []; lit "a2"] in
  is_header (lit "A,#genre#") = true
  ∧ Forall (λ raw, is_header raw = false) rest
  ∧ load_categories_from_template (Some (before ++ lit "A,#genre#" :: rest))
    = [(lit "A", [lit "a1"; lit "a2"]); (lit "B", [lit "b1"])]
  ∧ Dict.get (lit "A")
      (load_categories_from_template (Some (before ++ lit "A,#genre#" :: rest)))
    = Some [lit "a1"; lit "a2"].
Proof.
  intros before rest.
  assert (H1 : is_header (lit "A,#genre#") = true) by reflexivity.
  assert (H2 : Forall (λ raw, is_header raw = false) rest)
    by (repeat constructor).
  split; [exact H1|]. split; [exact H2|]. split; [by vm_compute|].
  destruct (names_follow_last_header before rest _ H1 H2) as [H _].
  exact H.
Defined.

(** ** The groups of the parser *)

Lemma first_seen_snoc (groups : list str) (g : str) :
  first_seen (groups ++ [g])
  = if decide (g ∈ first_seen groups) then first_seen groups
    else first_seen groups ++ [g].
Proof. unfold first_seen. by rewrite foldl_app. Qed.

Lemma first_seen_elem (groups : list str) (g : str) :
  g ∈ first_seen groups ↔ g ∈ groups.
Proof.
  induction groups as [|g' groups IH] using rev_ind; [done|].
  rewrite first_seen_snoc. case_decide as Hin.
  - rewrite elem_of_app, list_elem_of_singleton, IH. split; [auto|].
    intros [?| ->]; [done|]. by apply IH.
  - by rewrite !elem_of_app, IH.
Qed.

Lemma first_seen_NoDup (groups : list str) : NoDup (first_seen groups).
Proof.
  induction groups as [|g groups IH] using rev_ind; [apply NoDup_nil_2|].
  rewrite first_seen_snoc. case_decide as Hin; [done|].
  apply NoDup_app. split; [done|]. split; [|apply NoDup_singleton].
  by intros g' Hg' ->%list_elem_of_singleton.
Qed.

Lemma group_records_snoc (g : str) (entries : list (str * str)) (e : str * str) :
  group_records g (entries ++ [e])
  = group_records g entries ++ (if decide (fst e = g) then [snd e] else []).
Proof.
  unfold group_records. rewrite filter_app, fmap_app, filter_cons, filter_nil.
  by case_decide.
Qed.

Lemma group_records_absent (g : str) (entries : list (str * str)) :
  g ∉ entries.*1 → group_records g entries = [].
Proof.
  unfold group_records. induction entries as [|e entries IH]; [done|].
  rewrite fmap_cons, not_elem_of_cons, filter_cons. intros [Hne Hn].
  rewrite decide_False by done. by apply IH.
Qed.

Lemma kept_entries_S (mapping : gmap (list N) (list N)) (lines : list str)
    (n : nat) :
  kept_entries mapping lines (S n)
  = kept_entries mapping lines n
    ++ match kept_entry mapping lines n with Some e => [e] | None => [] end.
Proof.
  unfold kept_entries. rewrite seq_S, omap_app. simpl.
  by destruct (kept_entry mapping lines n).
Qed.

Lemma parser_groups_at (mapping : gmap (list N) (list N)) (lines : list str)
    (n : nat) :
  (channels (parser_before mapping lines n)).*1
  = first_seen (kept_entries mapping lines n).*1
  ∧ ∀ g, Dict.get g (channels (parser_before mapping lines n))
         = if decide (g ∈ (kept_entries mapping lines n).*1)
           then Some (group_records g (kept_entries mapping lines n))
           else None.
Proof.
  induction n as [|n [IHk IHg]].
  - split; [done|]. intros g. rewrite decide_False; [done|].
    apply not_elem_of_nil.
  - rewrite parser_before_S, kept_entries_S. unfold kept_entry.
    destruct (metadata_line lines n) as [line|] eqn:Hm.
    2:{ rewrite parse_line_dropped by by left. by rewrite app_nil_r. }
    destruct (entry_url lines n) as [url|] eqn:Hu.
    2:{ rewrite parse_line_dropped by by right. by rewrite app_nil_r. }
    rewrite (parse_line_kept _ _ _ _ line url Hm Hu). cbn [channels].
    unfold entry_group. rewrite carry_over_kept.
    set (g := default (default UNGROUPED (last_group_kept lines n))
                      (Re.search_quoted GROUP_TITLE line)).
    set (rec := entry_name mapping line ++ lit "," ++ url).
    set (chans := channels (parser_before mapping lines n)) in *.
    set (entries := kept_entries mapping lines n) in *.
    destruct (add_record g rec chans) as (Hget & Hother & _).
    rewrite fmap_app. change ([(g, rec)].*1) with [g].
    split.
    + rewrite keys_append_to, first_seen_snoc.
      unfold Dict.mem. rewrite <- IHk.
      case_bool_decide; [by rewrite decide_True|].
      by rewrite keys_set, !decide_False.
    + intros g'. rewrite group_records_snoc. cbn [fst snd].
      destruct (decide (g' = g)) as [->|Hne].
      * rewrite Hget, IHg.
        rewrite (decide_True (P := g ∈ entries.*1 ++ [g]))
          by (apply elem_of_app; right; left).
        rewrite (decide_True (P := g = g)) by done. f_equal. f_equal.
        case_decide as Hin; [done|]. by rewrite group_records_absent.
      * rewrite Hother, IHg by done.
        rewrite (decide_False (P := g = g')) by done. rewrite app_nil_r.
        apply decide_ext. rewrite elem_of_app, list_elem_of_singleton.
        split; [auto|]. by intros [?|?].
Qed.

Lemma parser_keys (mapping : gmap (list N) (list N)) (lines : list str) :
  (channels (parse_lines mapping lines)).*1
  = first_seen (kept_entries mapping lines (length lines)).*1.
Proof. apply (parser_groups_at mapping lines (length lines)). Qed.

Lemma dict_lookup_item {V} (d : Dict.t V) (k : str) (v : V) :
  NoDup d.*1 → (k, v) ∈ d → Dict.get k d = Some v.
Proof.
  induction d as [|[k' v'] d IH]; intros Hnd Hin.
  - by apply elem_of_nil in Hin.
  - rewrite fmap_cons in Hnd. apply NoDup_cons in Hnd as [Hk Hd].
    cbn [Dict.get]. apply elem_of_cons in Hin as [[= -> ->]|Hin].
    + by rewrite decide_True.
    + rewrite decide_False; [by apply IH|]. intros ->. apply Hk.
      apply list_elem_of_fmap. by exists (k, v).
Qed.

Lemma parser_item_records (mapping : gmap (list N) (list N)) (lines : list str)
    (g : str) (records : list str) :
  (g, records) ∈ channels (parse_lines mapping lines) →
  g ∈ (kept_entries mapping lines (length lines)).*1
  ∧ records = group_records g (kept_entries mapping lines (length lines)).
Proof.
  intros Hin. apply dict_lookup_item in Hin.
  2:{ rewrite parser_keys. apply first_seen_NoDup. }
  change (parse_lines mapping lines)
    with (parser_before mapping lines (length lines)) in Hin.
  rewrite (proj2 (parser_groups_at mapping lines (length lines))) in Hin.
  case_decide; [|done]. by injection Hin as <-.
Qed.

(** X12.  The groups of a parsed playlist are the groups of the entries it
    keeps, pairwise different and in the order in which they are first
    seen, and each group holds the records of its entries, at least one, in
    the order of the document. *)
Theorem parser_groups (mapping : gmap (list N) (list N)) (lines : list (list N)) :
  let chans := channels (parse_lines mapping lines) in
  let entries := kept_entries mapping lines (length lines) in
  chans.*1 = first_seen entries.*1
  ∧ NoDup chans.*1
  ∧ (∀ g records, (g, records) ∈ chans →
                  records = group_records g entries ∧ records ≠ [])
  ∧ (∀ g record, (g, record) ∈ entries →
                 ∃ records, Dict.get g chans = Some records ∧ record ∈ records).
Proof.
  intros chans entries.
  destruct (parser_groups_at mapping lines (length lines)) as [Hk Hg].
  change (channels (parser_before mapping lines (length lines)))
    with chans in Hk, Hg.
  fold entries in Hk, Hg.
  assert (Hnd : NoDup chans.*1) by (rewrite Hk; apply first_seen_NoDup).
  split; [exact Hk|]. split; [exact Hnd|]. split.
  - intros g records [Hgin ->]%parser_item_records. fold entries in Hgin |- *.
    split; [done|].
    apply list_elem_of_fmap in Hgin as ([g' r] & -> & He).
    unfold group_records. intros Hnil.
    assert (Hr : r ∈ snd <$> filter (λ e, fst e = g') entries).
    { apply list_elem_of_fmap. exists (g', r). split; [done|].
      by apply list_elem_of_filter. }
    simpl in Hnil. rewrite Hnil in Hr. by apply elem_of_nil in Hr.
  - intros g record He. exists (group_records g entries). split.
    + rewrite Hg, decide_True; [done|].
      apply list_elem_of_fmap. by exists (g, record).
    + apply list_elem_of_fmap. exists (g, record). split; [done|].
      by apply list_elem_of_filter.
Qed.

Lemma parser_groups_witness :
  let lines := Py.split 10 dropped_group_playlist in
  (lit "A", [lit "ch1,http://1"; lit "ch3,http://3"])
    ∈ channels (parse_lines ∅ lines)
  ∧ [lit "ch1,http://1"; lit "ch3,http://3"]
    = group_records (lit "A") (kept_entries ∅ lines (length lines)).
Proof.
  intros lines.
  assert (H : (lit "A", [lit "ch1,http://1"; lit "ch3,http://3"])
                ∈ channels (parse_lines ∅ lines))
    by (apply list_elem_of_In; vm_compute; left; reflexivity).
  split; [exact H|].
  destruct (parser_groups ∅ lines) as (_ & _ & Hr & _).
  exact (proj1 (Hr _ _ H)).
Defined.

(** ** Playlists that keep no entry *)

Lemma render_fold (chans : Dict.t (list str)) (txt : str) :
  foldl (λ txt item,
           (txt ++ fst item ++ GENRE_MARK ++ NL)
             ++ (Py.join NL (snd item) ++ NL ++ NL)) txt chans
  = txt ++ render chans.
Proof.
  unfold render. revert txt.
  induction chans as [|item chans IH] using rev_ind; intros txt.
  - simpl. by rewrite app_nil_r.
  - rewrite !foldl_app. simpl. rewrite IH. by rewrite <- !app_assoc.
Qed.

Lemma render_cons (item : str * list str) (chans : Dict.t (list str)) :
  render (item :: chans)
  = (fst item ++ GENRE_MARK ++ NL ++ Py.join NL (snd item) ++ NL ++ NL)
    ++ render chans.
Proof.
  unfold render at 1. cbn [foldl]. rewrite render_fold.
  by rewrite <- !app_assoc.
Qed.

Lemma lstrip_all_space (s : str) :
  Forall (λ c, Py.isspace c = true) s → Py.lstrip s = [].
Proof. induction 1 as [|c s Hc _ IH]; simpl; [done|]. by rewrite Hc. Qed.

Lemma strip_nil_iff (s : str) :
  Py.strip s = [] ↔ Forall (λ c, Py.isspace c = true) s.
Proof.
  split.
  - intros H. destruct (strip_spec s) as (a & b & Hs & Ha & Hb).
    rewrite H in Hs. rewrite Hs. by apply Forall_app.
  - intros H. unfold Py.strip. by rewrite lstrip_all_space.
Qed.

Lemma first_seen_nil (groups : list str) : first_seen groups = [] ↔ groups = [].
Proof.
  split; [|by intros ->]. intros H. destruct groups as [|g groups]; [done|].
  assert (Hin : g ∈ first_seen (g :: groups)) by (apply first_seen_elem; left).
  rewrite H in Hin. by apply elem_of_nil in Hin.
Qed.

Lemma parse_no_entry (mapping : gmap (list N) (list N)) (m3u_content : str) :
  kept_entries mapping (Py.split 10 m3u_content)
               (length (Py.split 10 m3u_content)) = [] →
  parse_m3u_to_txt mapping m3u_content = [].
Proof.
  intros He. unfold parse_m3u_to_txt.
  pose proof (parser_keys mapping (Py.split 10 m3u_content)) as Hk.
  rewrite He in Hk. simpl in Hk. apply fmap_nil_inv in Hk. by rewrite Hk.
Qed.

Lemma render_not_blank (item : str * list str) (chans : Dict.t (list str)) :
  Py.strip (render (item :: chans)) ≠ [].
Proof.
  intros Hs. apply strip_nil_iff in Hs. rewrite render_cons in Hs.
  rewrite Forall_forall in Hs. specialize (Hs 44).
  assert (Py.isspace 44 = true); [|done]. apply Hs.
  rewrite !elem_of_app. left. right. left. left.
Qed.

Lemma parse_some_entry (mapping : gmap (list N) (list N)) (m3u_content : str) :
  parse_m3u_to_txt mapping m3u_content = [] →
  kept_entries mapping (Py.split 10 m3u_content)
               (length (Py.split 10 m3u_content)) = [].
Proof.
  unfold parse_m3u_to_txt. intros Hs.
  pose proof (parser_keys mapping (Py.split 10 m3u_content)) as Hk.
  destruct (channels (parse_lines mapping (Py.split 10 m3u_content)))
    as [|item chans].
  - symmetry in Hk. apply (proj1 (first_seen_nil _)) in Hk.
    by apply fmap_nil_inv in Hk.
  - by apply render_not_blank in Hs.
Qed.

(** X13.  A playlist is parsed to the empty text exactly when it keeps no
    entry: with a single kept entry the text holds a group header. *)
Theorem parse_empty_iff (mapping : gmap (list N) (list N)) (m3u_content : list N) :
  let lines := Py.split 10 m3u_content in
  parse_m3u_to_txt mapping m3u_content = []
  ↔ kept_entries mapping lines (length lines) = [].
Proof.
  intros lines. split.
  - apply parse_some_entry.
  - apply parse_no_entry.
Qed.

Lemma aggregate_nil_entries (mapping : gmap (list N) (list N))
    (rs : list (option str)) :
  aggregate (fetch_m3u_content mapping <$> rs) = []
  ↔ ∀ body, Some body ∈ rs →
            kept_entries mapping (Py.split 10 body)
                         (length (Py.split 10 body)) = [].
Proof.
  rewrite aggregate_nil, Forall_fmap, Forall_forall. split.
  - intros H body Hin. apply parse_some_entry. by apply (H (Some body)).
  - intros H [body|] Hin; simpl; [|done]. by apply parse_no_entry, H.
Qed.

Section NoEntry.

Context {ic : Re.IgnoreCase}.

(** X14.  The aggregated text is empty exactly when no response has a
    playlist that keeps an entry, and then the run reports that there is
    no content and writes nothing, whatever the template is. *)
Theorem no_entry_no_output (w : world) :
  (aggregate (fetch_m3u_content (mapping_file w) <$> responses w) = []
   ↔ ∀ body, Some body ∈ responses w →
             kept_entries (mapping_file w) (Py.split 10 body)
                          (length (Py.split 10 body)) = [])
  ∧ ((∀ body, Some body ∈ responses w →
              kept_entries (mapping_file w) (Py.split 10 body)
                           (length (Py.split 10 body)) = []) →
     writes (main w) = [] ∧ last (main w) = Some (EvPrint MsgNoContent)).
Proof.
  split; [apply aggregate_nil_entries|].
  intros H%aggregate_nil_entries.
  by destruct (main_cases w)
    as [(_ & Hw & _ & Hl)|[(Hn & _)|[(Hn & _)|(Hn & _)]]].
Qed.

End NoEntry.

Lemma no_entry_no_output_witness :
  let w := {| tv_dir_exists := true;
              responses := [None; Some (lit "#EXTM3U" ++ NL ++ lit "#EXTINF:-1,ch")];
              mapping_file := ∅;
              template_file := Some [lit "News,#genre#"; lit "CNN"];
              write_ok := true |} in
  writes (main w) = [] ∧ last (main w) = Some (EvPrint MsgNoContent).
Proof.
  intros w. apply (proj2 (no_entry_no_output w)).
  intros body Hin. apply list_elem_of_In in Hin.
  destruct Hin as [Hin|[Hin|[]]]; [discriminate Hin|].
  injection Hin as <-. reflexivity.
Defined.

(** ** The record set of the aggregated text *)

Lemma splitlines_from_sep (s t : str) (cur : str) (cr : bool) :
  (cr = true → cur = []) →
  ∃ blanks, Forall (λ line, line = []) blanks
            ∧ Py.splitlines_from cur cr (s ++ 10 :: 10 :: t)
              = Py.splitlines_from cur cr s ++ blanks ++ Py.splitlines t.
Proof.
  revert cur cr. induction s as [|c s IH]; intros cur cr Hcr.
  - destruct cr.
    + rewrite Hcr by done. exists [[]]. split; [by repeat constructor|done].
    + destruct cur as [|d cur].
      * exists [[]; []]. split; [by repeat constructor|done].
      * exists [[]]. split; [by repeat constructor|done].
  - cbn [app Py.splitlines_from].
    destruct ((c =? 10) && cr); [by apply IH|].
    destruct (Py.islinebreak c).
    + destruct (IH [] (c =? 13)) as (blanks & Hb & ->); [done|].
      by exists blanks.
    + by apply IH.
Qed.

Lemma all_lines_of_sep (s t : str) :
  all_lines_of (s ++ 10 :: 10 :: t) = all_lines_of s ++ all_lines_of t.
Proof.
  unfold all_lines_of, Py.splitlines.
  destruct (splitlines_from_sep s t [] false) as (blanks & Hb & ->); [done|].
  rewrite !filter_app, !fmap_app.
  assert (filter (λ line, keep_line line = true) blanks = []) as ->; [|done].
  induction Hb as [|line blanks -> _ IH]; [done|].
  by rewrite filter_cons, decide_False.
Qed.

Lemma aggregate_cons (content : str) (contents : list str) :
  aggregate (content :: contents)
  = (if bool_decide (content ≠ []) then content ++ NL ++ NL else [])
    ++ aggregate contents.
Proof.
  unfold aggregate at 1. cbn [foldl]. rewrite aggregate_fold.
  by case_bool_decide.
Qed.

(** X15.  Aggregation is concatenation of record sets: the record set of
    the aggregated text is the record set of the first content, followed by
    that of the second, and so on in the order of the sources; the two
    newlines put after each content add no line to it and join no two
    lines. *)
Theorem aggregate_record_sets (contents : list (list N)) :
  all_lines_of (aggregate contents) = concat (all_lines_of <$> contents).
Proof.
  induction contents as [|content contents IH]; [done|].
  rewrite aggregate_cons, fmap_cons. cbn [concat]. rewrite <- IH.
  case_bool_decide as Hc.
  - rewrite <- app_assoc. apply all_lines_of_sep.
  - by rewrite Hc.
Qed.

(** ** The record set of a parsed playlist *)

Lemma contains_genre_strip (line : str) :
  Py.contains GENRE (Py.strip line) = Py.contains GENRE line.
Proof.
  destruct (Py.contains GENRE line) eqn:E.
  - apply contains_spec in E. apply strip_keeps_inside; [done| |done].
    repeat constructor.
  - destruct (Py.contains GENRE (Py.strip line)) eqn:E'; [|done].
    apply contains_strip in E'. congruence.
Qed.

Lemma keep_line_strip (line : str) : keep_line (Py.strip line) = keep_line line.
Proof. unfold keep_line. by rewrite strip_idem, contains_genre_strip. Qed.

Lemma record_set_cons (line : str) (lines : list str) :
  record_set (line :: lines)
  = (if keep_line line then [Py.strip line] else []) ++ record_set lines.
Proof.
  unfold record_set. rewrite filter_cons.
  destruct (keep_line line); [by rewrite decide_True|by rewrite decide_False].
Qed.

Lemma record_set_app (l1 l2 : list str) :
  record_set (l1 ++ l2) = record_set l1 ++ record_set l2.
Proof. unfold record_set. by rewrite filter_app, fmap_app. Qed.

(** A line counts in the record set only through its stripped text. *)
Lemma record_set_same_strip (l1 l2 : str) (lines : list str) :
  Py.strip l1 = Py.strip l2 →
  record_set (l1 :: lines) = record_set (l2 :: lines).
Proof.
  intros H. rewrite !record_set_cons.
  by rewrite <- (keep_line_strip l1), <- (keep_line_strip l2), H.
Qed.

Lemma record_set_blank (line : str) (lines : list str) :
  Py.strip line = [] → record_set (line :: lines) = record_set lines.
Proof.
  intros H. rewrite record_set_cons. unfold keep_line. by rewrite H.
Qed.

Lemma lstrip_app_space (x w : str) :
  Forall (λ c, Py.isspace c = true) w →
  Py.lstrip (x ++ w) = match Py.lstrip x with [] => [] | _ => Py.lstrip x ++ w end.
Proof.
  intros Hw. induction x as [|c x IH]; simpl.
  - by apply lstrip_all_space.
  - destruct (Py.isspace c); [done|done].
Qed.

Lemma rstrip_space (x w : str) :
  Forall (λ c, Py.isspace c = true) w → Py.rstrip (x ++ w) = Py.rstrip x.
Proof.
  intros Hw. unfold Py.rstrip. rewrite rev_app_distr, lstrip_ws; [done|].
  by apply Forall_rev.
Qed.

Lemma strip_space_before (w x : str) :
  Forall (λ c, Py.isspace c = true) w → Py.strip (w ++ x) = Py.strip x.
Proof. intros Hw. unfold Py.strip. by rewrite lstrip_ws. Qed.

Lemma strip_space_after (x w : str) :
  Forall (λ c, Py.isspace c = true) w → Py.strip (x ++ w) = Py.strip x.
Proof.
  intros Hw. unfold Py.strip. rewrite lstrip_app_space by done.
  destruct (Py.lstrip x); [done|]. by apply rstrip_space.
Qed.

Lemma isspace_linebreak (c : char) :
  Py.islinebreak c = true → Py.isspace c = true.
Proof.
  unfold Py.islinebreak, Py.isspace.
  rewrite !orb_true_iff, !andb_true_iff, !N.eqb_eq, !N.leb_le. lia.
Qed.

(** Whitespace waiting in front of the line being read does not change
    the record set. *)
Lemma record_set_space_pending (s cur w : str) :
  Forall (λ c, Py.isspace c = true) w →
  record_set (Py.splitlines_from (cur ++ w) false s)
  = record_set (Py.splitlines_from cur false s).
Proof.
  intros Hw. revert cur. induction s as [|c s IH]; intros cur.
  - cbn [Py.splitlines_from]. destruct cur as [|d cur].
    + destruct w as [|e w]; [done|]. simpl app.
      apply record_set_blank, strip_nil_iff. by apply Forall_rev.
    + simpl app. apply record_set_same_strip.
      change (d :: cur ++ w) with ((d :: cur) ++ w).
      rewrite rev_app_distr. apply strip_space_before. by apply Forall_rev.
  - cbn [Py.splitlines_from]. rewrite andb_false_r.
    destruct (Py.islinebreak c).
    + rewrite rev_app_distr. apply record_set_same_strip.
      apply strip_space_before. by apply Forall_rev.
    + apply (IH (c :: cur)).
Qed.

Lemma record_set_after_cr (s : str) :
  record_set (Py.splitlines_from [] true s)
  = record_set (Py.splitlines_from [] false s).
Proof.
  destruct s as [|c s]; [done|]. cbn [Py.splitlines_from].
  rewrite andb_true_r, andb_false_r. destruct (c =? 10) eqn:E; [|done].
  apply N.eqb_eq in E as ->. simpl. by rewrite record_set_blank.
Qed.

Lemma all_lines_of_space_before (w t : str) :
  Forall (λ c, Py.isspace c = true) w → all_lines_of (w ++ t) = all_lines_of t.
Proof.
  induction 1 as [|c w Hc _ IH]; [done|].
  rewrite <- IH. unfold all_lines_of, Py.splitlines.
  fold (record_set (Py.splitlines_from [] false ((c :: w) ++ t))).
  fold (record_set (Py.splitlines_from [] false (w ++ t))).
  cbn [app Py.splitlines_from]. rewrite andb_false_r.
  destruct (Py.islinebreak c).
  - rewrite record_set_blank by done.
    destruct (c =? 13); [apply record_set_after_cr|done].
  - apply (record_set_space_pending (w ++ t) [] [c]). by constructor.
Qed.

Lemma record_set_space_only (w cur : str) (cr : bool) :
  Forall (λ c, Py.isspace c = true) w → (cr = true → cur = []) →
  record_set (Py.splitlines_from cur cr w)
  = record_set (match cur with [] => [] | _ => [rev cur] end).
Proof.
  intros Hw. revert cur cr.
  induction Hw as [|c w Hc _ IH]; intros cur cr Hcr; [done|].
  cbn [Py.splitlines_from]. destruct ((c =? 10) && cr) eqn:E.
  - apply andb_true_iff in E as [_ ->]. rewrite Hcr by done.
    by rewrite IH.
  - destruct (Py.islinebreak c).
    + rewrite record_set_cons, IH by done. rewrite app_nil_r.
      destruct cur; [done|]. by rewrite record_set_cons, app_nil_r.
    + rewrite IH by done. destruct cur as [|d cur].
      * apply record_set_blank. simpl. apply strip_nil_iff. by constructor.
      * apply record_set_same_strip.
        change (rev (c :: d :: cur)) with (rev (d :: cur) ++ [c]).
        apply strip_space_after. by constructor.
Qed.

Lemma record_set_space_after (s w cur : str) (cr : bool) :
  Forall (λ c, Py.isspace c = true) w → (cr = true → cur = []) →
  record_set (Py.splitlines_from cur cr (s ++ w))
  = record_set (Py.splitlines_from cur cr s).
Proof.
  intros Hw. revert cur cr. induction s as [|c s IH]; intros cur cr Hcr.
  - by apply record_set_space_only.
  - cbn [app Py.splitlines_from].
    destruct ((c =? 10) && cr); [by apply IH|].
    destruct (Py.islinebreak c).
    + by rewrite !record_set_cons, IH.
    + by apply IH.
Qed.

(** Stripping a text does not change its record set. *)
Lemma all_lines_of_strip (t : str) : all_lines_of (Py.strip t) = all_lines_of t.
Proof.
  destruct (strip_spec t) as (a & b & Ht & Ha & Hb).
  rewrite Ht at 2. rewrite all_lines_of_space_before by done.
  symmetry. by apply (record_set_space_after (Py.strip t) b [] false).
Qed.

Lemma splitlines_from_line (s t cur : str) :
  no_break s →
  Py.splitlines_from cur false (s ++ 10 :: t) = (rev cur ++ s) :: Py.splitlines t.
Proof.
  intros Hs. revert cur. induction Hs as [|c s Hc _ IH]; intros cur.
  - by rewrite app_nil_r.
  - cbn [app Py.splitlines_from]. rewrite andb_false_r, Hc, IH.
    cbn [rev]. by rewrite <- app_assoc.
Qed.

Lemma all_lines_of_line (s t : str) :
  no_break s → all_lines_of (s ++ 10 :: t) = record_set [s] ++ all_lines_of t.
Proof.
  intros Hs. unfold all_lines_of.
  change (Py.splitlines (s ++ 10 :: t))
    with (Py.splitlines_from [] false (s ++ 10 :: t)).
  rewrite (splitlines_from_line s t [] Hs).
  change (rev [] ++ s) with s.
  fold (record_set (s :: Py.splitlines t)). fold (record_set (Py.splitlines t)).
  by rewrite !record_set_cons, app_nil_r.
Qed.

Lemma all_lines_of_records (records : list str) (t : str) :
  Forall no_break records →
  all_lines_of (Py.join NL records ++ NL ++ NL ++ t)
  = record_set records ++ all_lines_of t.
Proof.
  assert (Hblank : ∀ u, all_lines_of (NL ++ u) = all_lines_of u).
  { intros u. change (NL ++ u) with ([] ++ 10 :: u).
    rewrite all_lines_of_line by constructor.
    by rewrite record_set_blank. }
  induction 1 as [|r records Hr Hrs IH].
  - simpl Py.join. rewrite app_nil_l. by rewrite !Hblank.
  - destruct records as [|r' records].
    + change (Py.join NL [r] ++ NL ++ NL ++ t) with (r ++ 10 :: (NL ++ t)).
      by rewrite (all_lines_of_line r _ Hr), Hblank.
    + change (Py.join NL (r :: r' :: records))
        with (r ++ NL ++ Py.join NL (r' :: records)).
      rewrite <- !app_assoc.
      change (r ++ NL ++ Py.join NL (r' :: records) ++ NL ++ NL ++ t)
        with (r ++ 10 :: (Py.join NL (r' :: records) ++ NL ++ NL ++ t)).
      rewrite (all_lines_of_line r _ Hr), IH.
      by rewrite (record_set_cons r (r' :: records)), (record_set_cons r []),
        !app_nil_r, app_assoc.
Qed.

Lemma no_break_header (g : str) : no_break g → no_break (g ++ GENRE_MARK).
Proof. intros Hg. apply Forall_app. split; [done|]. repeat constructor. Qed.

Lemma all_lines_of_render (chans : Dict.t (list str)) :
  Forall (λ item, no_break (fst item) ∧ Forall no_break (snd item)) chans →
  all_lines_of (render chans) = record_set (concat (snd <$> chans)).
Proof.
  induction 1 as [|[g records] chans [Hg Hrs] _ IH]; [done|].
  rewrite render_cons, fmap_cons. cbn [fst snd concat].
  rewrite record_set_app, <- IH.
  rewrite <- (all_lines_of_records records (render chans) Hrs).
  rewrite <- !app_assoc.
  rewrite (app_assoc g GENRE_MARK). unfold NL at 1. cbn [app].
  rewrite (all_lines_of_line (g ++ GENRE_MARK)) by by apply no_break_header.
  rewrite record_set_cons. unfold keep_line.
  by rewrite header_contains_genre, andb_false_r.
Qed.

Lemma record_set_of_channels (mapping : gmap (list N) (list N))
    (m3u_content : list N) :
  let chans := channels (parse_lines mapping (Py.split 10 m3u_content)) in
  Forall (λ item, no_break (fst item) ∧ Forall no_break (snd item)) chans →
  all_lines_of (parse_m3u_to_txt mapping m3u_content)
  = Py.strip <$> filter (λ record, Py.contains GENRE record = false)
                        (concat (snd <$> chans)).
Proof.
  intros chans Hnb. unfold parse_m3u_to_txt. fold chans.
  rewrite all_lines_of_strip, all_lines_of_render by done.
  unfold record_set. f_equal.
  assert (Hne : Forall (λ record, Py.strip record ≠ []) (concat (snd <$> chans))).
  { apply Forall_forall. intros record Hin%list_elem_of_In.
    apply in_concat in Hin as (records & Hrs & Hin).
    apply list_elem_of_In, list_elem_of_fmap in Hrs as ([g rs] & -> & Hitem).
    destruct (parser_item_records _ _ g rs Hitem) as [_ ->]. simpl in Hin.
    apply list_elem_of_In, list_elem_of_fmap in Hin as ([g' r] & -> & He).
    apply list_elem_of_filter in He as [_ He]. simpl.
    unfold kept_entries in He.
    apply list_elem_of_omap in He as (i & _ & He). unfold kept_entry in He.
    destruct (metadata_line _ i) as [line|]; [|done].
    destruct (entry_url _ i) as [url|] eqn:Hu; [|done].
    injection He as _ <-.
    apply entry_url_spec in Hu as (next & _ & -> & Hne & _).
    intros Hs%strip_nil_iff. apply Hne.
    apply Forall_app in Hs as [_ Hs]. apply Forall_cons in Hs as [_ Hs].
    apply strip_nil_iff in Hs. by rewrite strip_idem in Hs. }
  induction Hne as [|record records Hr _ IH]; [done|].
  rewrite !filter_cons, IH. unfold keep_line.
  rewrite (bool_decide_eq_true_2 _ Hr). simpl.
  destruct (Py.contains GENRE record); simpl; done.
Qed.

Lemma no_break_elems (x y : str) :
  (∀ c, c ∈ x → c ∈ y) → no_break y → no_break x.
Proof.
  unfold no_break. rewrite !Forall_forall. intros Hsub Hy c Hc. by apply Hy, Hsub.
Qed.

Lemma split_last_elem (sep c : char) (s : str) :
  c ∈ Py.last_field (Py.split sep s) → c ∈ s.
Proof.
  unfold Py.last_field. induction s as [|d s IH]; simpl.
  - by intros ?%elem_of_nil.
  - destruct (d =? sep).
    + pose proof (split_nonempty sep s) as Hne.
      destruct (Py.split sep s) as [|w ws] eqn:E; [done|].
      intros H. right. by apply IH.
    + destruct (Py.split sep s) as [|w ws] eqn:E.
      * simpl. by intros [->|?%elem_of_nil]%elem_of_cons; [left|].
      * destruct ws as [|w' ws].
        -- simpl in *. intros [->|H]%elem_of_cons; [left|right; by apply IH].
        -- intros H. right. by apply IH.
Qed.

Section NoBreak.

Variable mapping : gmap (list N) (list N).
Variable lines : list (list N).
Hypothesis lines_no_break : ∀ raw, raw ∈ lines → no_break (Py.strip raw).
Hypothesis mapping_no_break : ∀ k v, mapping !! k = Some v → no_break v.

Lemma metadata_line_no_break (k : nat) (line : str) :
  metadata_line lines k = Some line → no_break line.
Proof.
  unfold metadata_line. destruct (lines !! k) as [raw|] eqn:E; [|done].
  destruct (Py.startswith EXTINF (Py.strip raw)); [|done].
  intros [= <-]. apply lines_no_break. by apply list_elem_of_lookup_2 in E.
Qed.

Lemma search_quoted_no_break (prefix line v : str) :
  no_break line → Re.search_quoted prefix line = Some v → no_break v.
Proof.
  intros Hl (a & b & -> & _)%search_quoted_Some.
  apply Forall_app in Hl as [_ Hl]. apply Forall_app in Hl as [_ Hl].
  by apply Forall_app in Hl as [Hl _].
Qed.

Lemma last_group_kept_no_break (n : nat) (g : str) :
  last_group_kept lines n = Some g → no_break g.
Proof.
  induction n as [|n IH]; [done|]. simpl.
  unfold group_kept_at, group_seen_at.
  destruct (entry_url lines n); [|done].
  destruct (metadata_line lines n) as [line|] eqn:Hm; [|done].
  destruct (Re.search_quoted GROUP_TITLE line) as [g'|] eqn:Hs; [|done].
  intros [= <-]. apply (search_quoted_no_break GROUP_TITLE line); [|done].
  by apply (metadata_line_no_break n).
Qed.

Lemma kept_entry_no_break (i : nat) (g record : str) :
  kept_entry mapping lines i = Some (g, record) → no_break g ∧ no_break record.
Proof.
  unfold kept_entry.
  destruct (metadata_line lines i) as [line|] eqn:Hm; [|done].
  destruct (entry_url lines i) as [url|] eqn:Hu; [|done].
  pose proof (metadata_line_no_break i line Hm) as Hline.
  intros [= <- <-]. split.
  - destruct (Re.search_quoted GROUP_TITLE line) as [g'|] eqn:Hs; simpl.
    + by apply (search_quoted_no_break GROUP_TITLE line).
    + destruct (last_group_kept lines i) as [g'|] eqn:Hl; simpl.
      * by apply (last_group_kept_no_break i).
      * repeat constructor.
  - apply Forall_app. split; [|apply Forall_cons; split; [by vm_compute|]].
    + assert (Hraw : no_break (entry_raw_name line)).
      { unfold entry_raw_name.
        destruct (Re.search_quoted TVG_NAME line) as [v|] eqn:Hs; simpl.
        - by apply (search_quoted_no_break TVG_NAME line).
        - apply (no_break_elems _ line); [|done].
          intros c Hc%strip_elem. by apply split_last_elem in Hc. }
      unfold entry_name.
      destruct (mapping !! entry_raw_name line) as [v|] eqn:Hv; simpl; [|done].
      by apply (mapping_no_break _ v Hv).
    + apply entry_url_spec in Hu as (next & Hnext & -> & _).
      apply lines_no_break. by apply list_elem_of_lookup_2 in Hnext.
Qed.

Lemma channels_no_break :
  Forall (λ item, no_break (fst item) ∧ Forall no_break (snd item))
         (channels (parse_lines mapping lines)).
Proof.
  pose proof (parser_keys mapping lines) as Hk.
  assert (He : ∀ g r, (g, r) ∈ kept_entries mapping lines (length lines) →
                      no_break g ∧ no_break r).
  { intros g r Hin. unfold kept_entries in Hin.
    apply list_elem_of_omap in Hin as (i & _ & Hi).
    by apply (kept_entry_no_break i). }
  apply Forall_forall. intros [g records] Hitem. simpl. split.
  - assert (Hg : g ∈ (channels (parse_lines mapping lines)).*1)
      by (apply list_elem_of_fmap; by exists (g, records)).
    rewrite Hk in Hg. apply (proj1 (first_seen_elem _ _)) in Hg.
    apply list_elem_of_fmap in Hg as ([g' r] & -> & Hin). by apply (He g' r).
  - destruct (parser_item_records _ _ g records Hitem) as [_ ->].
    apply Forall_forall. intros r Hr. unfold group_records in Hr.
    apply list_elem_of_fmap in Hr as ([g' r'] & -> & Hin).
    apply list_elem_of_filter in Hin as [_ Hin]. by apply (He g' r').
Qed.

End NoBreak.

Lemma parsed_record_set_of_body (mapping : gmap (list N) (list N)) (body : str) :
  (∀ raw, raw ∈ Py.split 10 body → no_break (Py.strip raw)) →
  (∀ k v, mapping !! k = Some v → no_break v) →
  all_lines_of (parse_m3u_to_txt mapping body)
  = source_records mapping (Some body).
Proof.
  intros Hlines Hmap. apply record_set_of_channels.
  by apply channels_no_break.
Qed.

(** X16.  For a playlist whose lines, once stripped, hold no line boundary
    other than the line feeds that separate them, and a mapping whose
    mapped names hold none, the record set that the classifier reads from
    the text of the playlist is the records of the playlist, group after
    group in the order of the groups and in each group in the order of the
    entries, each stripped, without the records that contain [#genre#]:
    the group headers and the blank lines between the groups give
    nothing. *)
Theorem parsed_record_set (mapping : gmap (list N) (list N))
    (m3u_content : list N) :
  (∀ raw, raw ∈ Py.split 10 m3u_content → no_break (Py.strip raw)) →
  (∀ k v, mapping !! k = Some v → no_break v) →
  all_lines_of (parse_m3u_to_txt mapping m3u_content)
  = Py.strip <$> filter (λ record, Py.contains GENRE record = false)
      (concat (snd <$> channels (parse_lines mapping (Py.split 10 m3u_content)))).
Proof.
  intros Hlines Hmap. by apply parsed_record_set_of_body.
Qed.

Lemma parsed_record_set_witness :
  (∀ raw, raw ∈ Py.split 10 dropped_group_playlist → no_break (Py.strip raw))
  ∧ all_lines_of (parse_m3u_to_txt ∅ dropped_group_playlist)
    = [lit "ch1,http://1"; lit "ch3,http://3"].
Proof.
  assert (H : ∀ raw, raw ∈ Py.split 10 dropped_group_playlist →
                     no_break (Py.strip raw)).
  { intros raw Hin%list_elem_of_In. vm_compute in Hin.
    repeat (destruct Hin as [<-|Hin]; [vm_compute; repeat constructor|]).
    destruct Hin. }
  split; [exact H|].
  rewrite (parsed_record_set ∅ dropped_group_playlist H); [reflexivity|].
  intros k v Hkv. by rewrite lookup_empty in Hkv.
Defined.

(** X17.  From the responses to the classifier: when the lines of the
    playlists, once stripped, and the mapped names hold no line boundary,
    the record set of a run is the records of the first source, then those
    of the second, and so on, a source whose request failed giving none. *)
Theorem run_record_set (mapping : gmap (list N) (list N))
    (rs : list (option (list N))) :
  (∀ body raw, Some body ∈ rs → raw ∈ Py.split 10 body →
               no_break (Py.strip raw)) →
  (∀ k v, mapping !! k = Some v → no_break v) →
  all_lines_of (aggregate (fetch_m3u_content mapping <$> rs))
  = concat (source_records mapping <$> rs).
Proof.
  intros Hlines Hmap. induction rs as [|r rs IH]; [done|].
  rewrite !fmap_cons, aggregate_cons. cbn [concat].
  assert (Hr : all_lines_of (fetch_m3u_content mapping r)
               = source_records mapping r).
  { destruct r as [body|]; [|done].
    apply parsed_record_set_of_body; [|done].
    intros raw Hraw. apply (Hlines body); [left|done]. }
  rewrite <- Hr, <- IH by (intros body raw Hin; apply Hlines; by right).
  case_bool_decide as Hc.
  - rewrite <- app_assoc. apply all_lines_of_sep.
  - by rewrite Hc.
Qed.

Lemma run_record_set_witness :
  let rs := [Some news_playlist; None; Some dropped_group_playlist] in
  (∀ body raw, Some body ∈ rs → raw ∈ Py.split 10 body →
               no_break (Py.strip raw))
  ∧ all_lines_of (aggregate (fetch_m3u_content ∅ <$> rs))
    = [lit "CNN,http://a"; lit "BBC,http://b";
       lit "ch1,http://1"; lit "ch3,http://3"].
Proof.
  intros rs.
  assert (H : ∀ body raw, Some body ∈ rs → raw ∈ Py.split 10 body →
                          no_break (Py.strip raw)).
  { intros body raw Hb%list_elem_of_In Hin%list_elem_of_In.
    destruct Hb as [Hb|[Hb|[Hb|[]]]]; [|discriminate Hb|];
      injection Hb as <-; vm_compute in Hin;
      repeat (destruct Hin as [<-|Hin]; [vm_compute; repeat constructor|]);
      destruct Hin. }
  split; [exact H|].
  rewrite (run_record_set ∅ rs H); [reflexivity|].
  intros k v Hkv. by rewrite lookup_empty in Hkv.
Defined.

(** ** The pattern of the classifier on the record set *)

Section RecordLines.

Context {ic : Re.IgnoreCase}.

(** X18.  A line of the record set is matched by an expected name, with or
    without commas in it, exactly when the line begins with a text equal to
    the expected name up to the case of the letters, character by character
    as [re.IGNORECASE] compares them, followed by whitespace or none and
    then a comma. *)
Theorem record_line_matched (all_content channel line : list N) :
  line ∈ all_lines_of all_content →
  Re.match_channel channel line = true
  ↔ ∃ name w rest,
      line = name ++ w ++ 44 :: rest
      ∧ ci_equal name channel = true
      ∧ Forall (λ c, Py.isspace c = true) w.
Proof.
  intros Hs%all_lines_stripped. rewrite match_channel_spec. split.
  - intros (w1 & name & w2 & rest & Hl & Hw1 & Hn & Hw2).
    destruct w1 as [|c w1]; [by exists name, w2, rest|].
    apply stripped_head in Hs. rewrite Hl in Hs. simpl in Hs.
    apply Forall_cons in Hw1 as [Hc _]. congruence.
  - intros (name & w & rest & Hl & Hn & Hw). by exists [], name, w, rest.
Qed.

End RecordLines.

Lemma record_line_matched_witness :
  sky_line ∈ all_lines_of (parse_m3u_to_txt ∅ sky_playlist)
  ∧ Re.match_channel (lit "sky news, hd") sky_line = true.
Proof.
  assert (H : sky_line ∈ all_lines_of (parse_m3u_to_txt ∅ sky_playlist))
    by (apply list_elem_of_In; vm_compute; left; reflexivity).
  split; [exact H|].
  apply (record_line_matched _ (lit "sky news, hd") sky_line H).
  exists (lit "Sky News, HD"), [], (lit "http://s").
  split; [reflexivity|]. split; [reflexivity|constructor].
Defined.

(** ** The counts a run prints *)

Section Counts.

Context {ic : Re.IgnoreCase}.

Lemma size_list_to_set_le (l : list str) :
  (size (list_to_set l : gset (list N)) ≤ length l)%nat.
Proof.
  induction l as [|x l IH]; [done|]. simpl.
  rewrite size_union_alt, size_singleton.
  assert (size ((list_to_set l : gset (list N)) ∖ {[x]})
          ≤ size (list_to_set l : gset (list N)))%nat
    by (apply subseteq_size; set_solver).
  lia.
Qed.

Lemma length_matched_unmatched (categories : Dict.t (list str))
    (all_lines : list str) :
  (length (filter (λ line, matching_slots categories line ≠ 0%nat) all_lines)
   + length (unmatched categories all_lines))%nat
  = length all_lines.
Proof.
  unfold unmatched. induction all_lines as [|x l IH]; [done|].
  rewrite !filter_cons.
  destruct (decide (matching_slots categories x = 0%nat)) as [H0|H0].
  - rewrite decide_False by (by intros ?). simpl. lia.
  - rewrite decide_True by done. simpl. lia.
Qed.

Lemma matched_lines_filter (categories : Dict.t (list str)) (all_content : str) :
  matched_lines (classify categories all_content)
  = list_to_set (filter (λ line, matching_slots categories line ≠ 0%nat)
                        (all_lines_of all_content)).
Proof.
  rewrite classify_matched. apply set_eq. intros x.
  rewrite !elem_of_list_to_set, elem_of_category_lines, list_elem_of_filter.
  rewrite matching_slots_pos. tauto.
Qed.

Lemma filter_ext_elem (P Q : str → Prop) `{!∀ x, Decision (P x)}
    `{!∀ x, Decision (Q x)} (l : list str) :
  (∀ x, x ∈ l → P x ↔ Q x) → filter P l = filter Q l.
Proof.
  induction l as [|y l IH]; intros Hext; [done|].
  rewrite !filter_cons, IH by (intros x Hx; apply Hext; by right).
  destruct (decide (P y)) as [Hy|Hy].
  - rewrite decide_True; [done|]. apply Hext; [left|done].
  - rewrite decide_False; [done|]. intros Hq. apply Hy, Hext; [left|done].
Qed.

Lemma main_stats (w : world) (m o : nat) :
  EvPrint (MsgStats m o) ∈ main w →
  let categories := load_categories_from_template (template_file w) in
  let all_content :=
    aggregate (fetch_m3u_content (mapping_file w) <$> responses w) in
  let st := classify categories all_content in
  m = size (matched_lines st)
  ∧ o = length (other_lines_of (all_lines_of all_content) (matched_lines st)).
Proof.
  unfold main. intros H. cbv zeta.
  assert (Hstart : EvPrint (MsgStats m o)
            ∉ (if tv_dir_exists w then [] else [EvMakeDirs])
              ++ [EvPrint (MsgSources (length (responses w)))]).
  { destruct (tv_dir_exists w); simpl; intros Hin%list_elem_of_In;
      simpl in Hin; intuition discriminate. }
  case_bool_decide.
  - apply elem_of_app in H as [H|H%list_elem_of_In]; [done|].
    simpl in H. intuition discriminate.
  - destruct (load_categories_from_template (template_file w)) eqn:Hc.
    + apply elem_of_app in H as [H|H%list_elem_of_In]; [done|].
      simpl in H. intuition discriminate.
    + apply elem_of_app in H as [H|H%list_elem_of_In]; [done|].
      destruct (write_ok w); simpl in H.
      * destruct H as [H|[H|[H|[]]]]; try discriminate H.
        injection H as <- <-. done.
      * intuition discriminate.
Qed.

(** X19.  The two counts printed at the end of a run are the number of
    different texts that are matched and the number of lines of the
    catch-all: their sum never exceeds the number of lines of the record
    set, and equals it when no line occurs twice in the record set. *)
Theorem run_statistics (w : world) (m o : nat) :
  EvPrint (MsgStats m o) ∈ main w →
  let categories := load_categories_from_template (template_file w) in
  let all_lines :=
    all_lines_of (aggregate (fetch_m3u_content (mapping_file w) <$> responses w)) in
  let matched :=
    filter (λ line, matching_slots categories line ≠ 0%nat) all_lines in
  m = size (list_to_set matched : gset (list N))
  ∧ o = length (unmatched categories all_lines)
  ∧ (m + o ≤ length all_lines)%nat
  ∧ (NoDup all_lines → (m + o)%nat = length all_lines).
Proof.
  intros H categories all_lines matched.
  apply main_stats in H as [Hm Ho]. cbv zeta in Hm, Ho.
  rewrite matched_lines_filter in Hm, Ho. fold categories all_lines matched in Hm, Ho.
  assert (Ho' : o = length (unmatched categories all_lines)).
  { rewrite Ho. f_equal. unfold other_lines_of, unmatched.
    apply filter_ext_elem. intros x Hx. unfold matched.
    rewrite elem_of_list_to_set, list_elem_of_filter. split.
    - intros Hn. destruct (decide (matching_slots categories x = 0%nat)); [done|].
      destruct Hn. done.
    - intros H0 [Hn _]. done. }
  pose proof (length_matched_unmatched categories all_lines) as Hlen.
  fold matched in Hlen.
  pose proof (size_list_to_set_le matched) as Hle.
  split; [done|]. split; [done|]. split; [lia|].
  intros Hnd. rewrite Hm, size_list_to_set; [lia|].
  by apply NoDup_filter.
Qed.

End Counts.

Lemma run_statistics_witness :
  EvPrint (MsgStats 1 1) ∈ main news_world
  ∧ (1 + 1 ≤ length (all_lines_of (aggregate
       (fetch_m3u_content (mapping_file news_world) <$> responses news_world))))%nat.
Proof.
  assert (H : EvPrint (MsgStats 1 1) ∈ main news_world).
  { apply list_elem_of_In. vm_compute. do 3 right. left. reflexivity. }
  split; [exact H|].
  by destruct (run_statistics news_world 1 1 H) as (_ & _ & Hle & _).
Defined.

(** ** The headers of the document *)

Section Headers.

Context {ic : Re.IgnoreCase}.

Lemma filter_genre_lines (l : list str) :
  Forall (λ x, Py.contains GENRE x = false) l →
  filter (λ line, Py.contains GENRE line = true) l = [].
Proof.
  induction 1 as [|x l Hx _ IH]; [done|].
  rewrite filter_cons, decide_False; [done|]. by rewrite Hx.
Qed.

Lemma category_lines_no_genre (all_content : str) (chans : list str) :
  Forall (λ x, Py.contains GENRE x = false)
         (category_lines (all_lines_of all_content) chans).
Proof.
  apply Forall_forall. intros x [Hx _]%elem_of_category_lines.
  by apply all_lines_elem in Hx as [_ Hg].
Qed.

Lemma filter_genre_template_blocks (categories : Dict.t (list str))
    (all_content : str) :
  filter (λ line, Py.contains GENRE line = true)
         (template_blocks categories (all_lines_of all_content))
  = (λ item, fst item ++ GENRE_MARK) <$> categories.
Proof.
  induction categories as [|item categories IH]; [done|].
  rewrite template_blocks_cons, filter_app, IH, fmap_cons.
  unfold category_block. rewrite filter_cons, decide_True
    by apply header_contains_genre.
  rewrite filter_app, filter_genre_lines by apply category_lines_no_genre.
  rewrite filter_cons, decide_False by done. done.
Qed.

(** X20.  The lines of the document that contain [#genre#] are the headers
    of the categories of the template, every one of them and in the order
    of the template, whether or not a line was matched under it, followed
    by the header of the catch-all when some line is matched by no expected
    name. *)
Theorem document_headers (categories : Dict.t (list (list N)))
    (all_content : list N) :
  filter (λ line, Py.contains GENRE line = true)
         (sorted_content (classify categories all_content))
  = ((λ item, fst item ++ GENRE_MARK) <$> categories)
    ++ match unmatched categories (all_lines_of all_content) with
       | [] => []
       | _ :: _ => [OTHER ++ GENRE_MARK]
       end.
Proof.
  rewrite classify_layout, filter_app, filter_genre_template_blocks. f_equal.
  destruct (unmatched categories (all_lines_of all_content)) as [|y others] eqn:E;
    [done|].
  cbn [catch_all_block].
  rewrite filter_cons, decide_True by apply header_contains_genre.
  rewrite filter_app, filter_genre_lines.
  - by rewrite filter_cons, decide_False.
  - rewrite <- E. apply Forall_forall. intros x [_ Hx]%list_elem_of_filter.
    by apply all_lines_elem in Hx as [_ Hg].
Qed.

End Headers.

(** ** Playlists without live entries *)

(** X21.  A playlist none of whose lines, once stripped, starts with
    [#EXTINF:-1], as one whose entries all carry a duration, keeps no entry
    and is parsed to the empty text. *)
Theorem playlist_without_live_entries (mapping : gmap (list N) (list N))
    (m3u_content : list N) :
  (∀ raw, raw ∈ Py.split 10 m3u_content →
          Py.startswith EXTINF (Py.strip raw) = false) →
  parse_m3u_to_txt mapping m3u_content = [].
Proof.
  intros H. apply parse_no_entry. unfold kept_entries.
  induction (seq 0 (length (Py.split 10 m3u_content))) as [|i l IH]; [done|].
  cbn [omap list_omap]. rewrite IH. unfold kept_entry, metadata_line.
  destruct (Py.split 10 m3u_content !! i) as [raw|] eqn:E; [|done].
  rewrite H; [done|]. by apply list_elem_of_lookup_2 in E.
Qed.

Lemma playlist_without_live_entries_witness :
  let doc := lit "#EXTM3U" ++ NL ++ lit "#EXTINF:120,film" ++ NL ++ lit "http://f" in
  (∀ raw, raw ∈ Py.split 10 doc → Py.startswith EXTINF (Py.strip raw) = false)
  ∧ parse_m3u_to_txt ∅ doc = [].
Proof.
  intros doc.
  assert (H : ∀ raw, raw ∈ Py.split 10 doc →
                     Py.startswith EXTINF (Py.strip raw) = false).
  { intros raw Hin%list_elem_of_In. vm_compute in Hin.
    repeat (destruct Hin as [<-|Hin]; [reflexivity|]). destruct Hin. }
  split; [exact H|]. exact (playlist_without_live_entries ∅ doc H).
Defined.

(** The theorem on the source list at a source file, and the theorem on
    the empty text at a playlist whose only entry has no url. *)
Lemma load_source_urls_wellformed_witness :
  let file := Some [lit "  http://a/1.m3u "; lit "httpfoo"] in
  lit "httpfoo" ∈ load_source_urls file
  ∧ Py.startswith (lit "http") (lit "httpfoo") = true.
Proof.
  intros file.
  assert (H : lit "httpfoo" ∈ load_source_urls file)
    by (apply list_elem_of_In; vm_compute; right; left; reflexivity).
  split; [exact H|].
  exact (proj1 (proj2 (load_source_urls_wellformed file) _ H)).
Defined.

Lemma parse_empty_iff_witness :
  kept_entries ∅ (Py.split 10 (lit "#EXTINF:-1,ch"))
               (length (Py.split 10 (lit "#EXTINF:-1,ch"))) = []
  ∧ parse_m3u_to_txt ∅ (lit "#EXTINF:-1,ch") = [].
Proof.
  assert (H : kept_entries ∅ (Py.split 10 (lit "#EXTINF:-1,ch"))
                (length (Py.split 10 (lit "#EXTINF:-1,ch"))) = [])
    by reflexivity.
  split; [exact H|].
  exact (proj2 (parse_empty_iff ∅ (lit "#EXTINF:-1,ch")) H).
Defined.
